(** * athena_mcp_server: the Athena query orchestrator and its tool wrappers

    A shallow embedding of [athena_mcp_server.py].  The Python module talks
    to AWS Athena through a boto3 client; everything the module cannot see
    (the remote service, the clock, the traceback printer) is a [Host], and
    the module's functions are computations over the process state in a small
    state-and-exception monad.  Every call that leaves the process is
    recorded, with its outcome, in the order it was made. *)

From Stdlib Require Import Ascii String ZArith Lia.
From stdpp Require Import base decidable option list relations strings pretty.

Local Open Scope Z_scope.

#[local] Arguments String.append : simpl nomatch.

(** ** Text *)

(** The line feed the f-strings write as [\n]. *)
Definition nl : string := String "010"%char EmptyString.

(** [needle in hay] on Python strings. *)
Definition contains (hay needle : string) : Prop :=
  exists pre post, hay = pre +:+ needle +:+ post.

Fixpoint starts_with (needle hay : string) : bool :=
  match needle, hay with
  | EmptyString, _ => true
  | String a n, String b h => if decide (a = b) then starts_with n h else false
  | String _ _, EmptyString => false
  end.

Fixpoint containsb (hay needle : string) : bool :=
  starts_with needle hay ||
  match hay with
  | EmptyString => false
  | String _ h => containsb h needle
  end.

(** ** Exceptions *)

(** The [Exception] instances that can reach the handler of
    [_execute_query_internal]: a failed dictionary subscript, a local read
    before its first assignment, and whatever boto3 raises ([Raised], known
    only through its [str]). *)
Inductive Exception : Type :=
| KeyError (key : string)
| UnboundLocalError (name : string)
| Raised (message : string).

(** [str(e)]; a [KeyError] prints the [repr] of its key. *)
Definition str_exc (e : Exception) : string :=
  match e with
  | KeyError key => "'" +:+ key +:+ "'"
  | UnboundLocalError name =>
      "cannot access local variable '" +:+ name +:+
      "' where it is not associated with a value"
  | Raised message => message
  end.

(** ** Responses of the remote service

    Each dictionary the code subscripts is a record; a key that may be
    missing from the dictionary is an [option] field. *)

Record Datum := { VarCharValue : option string }.
Record Row := { Data : option (list Datum) }.
Record ResultSetT := { Rows : option (list Row) }.
Record GetQueryResultsOutput := { ResultSet : option ResultSetT }.

Record QueryExecutionStatus :=
  { State : option string; StateChangeReason : option string }.
Record QueryExecutionT := { Status : option QueryExecutionStatus }.
Record GetQueryExecutionOutput := { QueryExecution : option QueryExecutionT }.

Record StartQueryExecutionOutput := { QueryExecutionId : option string }.

(** ** The host

    [world] is the state of everything outside the process, [client] the
    boto3 client objects.  A call either raises or returns, and may change
    the world. *)
Class Host (world client : Type) := {
  boto3_client :
    string -> string -> world -> (Exception + client) * world;
  start_query_execution :
    client -> string -> string -> string ->
    world -> (Exception + StartQueryExecutionOutput) * world;
  get_query_execution :
    client -> string -> world -> (Exception + GetQueryExecutionOutput) * world;
  get_query_results :
    client -> string -> world -> (Exception + GetQueryResultsOutput) * world;
  time_sleep : Z -> world -> world;
  (** [traceback.format_exc()] while [e] is being handled *)
  format_exc : Exception -> string
}.

(** ** Module constants *)

Definition DATABASE_NAME : string := "drm_text2sql_db".
Definition OUTPUT_LOCATION : string := "s3://glab-drm-query-results/".
Definition max_attempts : nat := 30.

(** ** Reading a status response *)

(** [query_status['QueryExecution']['Status']['State']] *)
Definition read_state (qs : GetQueryExecutionOutput) : Exception + string :=
  match QueryExecution qs with
  | None => inl (KeyError "QueryExecution")
  | Some qe =>
      match Status qe with
      | None => inl (KeyError "Status")
      | Some st =>
          match State st with
          | None => inl (KeyError "State")
          | Some s => inr s
          end
      end
  end.

(** The [StateChangeReason] of a status response, when it carries one. *)
Definition reason_of (qs : GetQueryExecutionOutput) : option string :=
  match QueryExecution qs with
  | Some {| Status := Some st |} => StateChangeReason st
  | _ => None
  end.

(** The states after which the loop stops polling. *)
Definition terminal (s : string) : Prop :=
  s ∈ ["SUCCEEDED"; "FAILED"; "CANCELLED"].

Section Server.

Context {world client : Type} `{!Host world client}.

(** Calls that leave the process, each with what came back. *)
Inductive event : Type :=
| Boto3Client (service_name region_name : string) (r : Exception + client)
| StartQueryExecution (QueryString Database OutputLocation : string)
    (r : Exception + StartQueryExecutionOutput)
| GetQueryExecution (id : string) (r : Exception + GetQueryExecutionOutput)
| GetQueryResults (id : string) (r : Exception + GetQueryResultsOutput)
| Sleep (seconds : Z).

(** The process: the module global [_athena_client], the world outside, and
    the calls made so far. *)
Record process := {
  _athena_client : option client;
  outside : world;
  calls : list event
}.

(** ** State and exceptions *)

Definition M (A : Type) : Type := process -> (Exception + A) * process.

Definition ret {A} (a : A) : M A := fun p => (inr a, p).

Definition raise {A} (e : Exception) : M A := fun p => (inl e, p).

Definition bind {A B} (m : M A) (k : A -> M B) : M B :=
  fun p =>
    match m p with
    | (inl e, p') => (inl e, p')
    | (inr a, p') => k a p'
    end.

(** [try: body  except Exception as e: handler e] *)
Definition try_except {A} (body : M A) (handler : Exception -> M A) : M A :=
  fun p =>
    match body p with
    | (inl e, p') => handler e p'
    | (inr a, p') => (inr a, p')
    end.

Notation "x <- m ;; k" := (bind m (fun x => k))
  (at level 100, m at next level, right associativity).
Notation "m ;;; k" := (bind m (fun _ => k))
  (at level 100, right associativity).

(** A call to the host: run it on the world, record it. *)
Definition call {A} (ev : Exception + A -> event)
    (op : world -> (Exception + A) * world) : M A :=
  fun p =>
    let (r, w) := op (outside p) in
    (r, {| _athena_client := _athena_client p;
           outside := w;
           calls := calls p ++ [ev r] |}).

Definition sleep (seconds : Z) : M unit :=
  fun p =>
    (inr tt, {| _athena_client := _athena_client p;
                outside := time_sleep seconds (outside p);
                calls := calls p ++ [Sleep seconds] |}).

(** [d[key]] *)
Definition getitem {A} (key : string) (field : option A) : M A :=
  match field with
  | Some v => ret v
  | None => raise (KeyError key)
  end.

(** Reading a local that the loop may not have assigned. *)
Definition local {A} (name : string) (v : option A) : M A :=
  match v with
  | Some a => ret a
  | None => raise (UnboundLocalError name)
  end.

(** [[f(x) for x in l]] *)
Fixpoint comprehension {A B} (f : A -> M B) (l : list A) : M (list B) :=
  match l with
  | [] => ret []
  | x :: l' => y <- f x ;; ys <- comprehension f l' ;; ret (y :: ys)
  end.

(** [for x in l: acc = body(x, acc)] *)
Fixpoint for_each {A S} (l : list A) (body : A -> S -> M S) (acc : S) : M S :=
  match l with
  | [] => ret acc
  | x :: l' => acc' <- body x acc ;; for_each l' body acc'
  end.

(** ** get_athena_client *)

Definition set_athena_client (c : client) : M unit :=
  fun p =>
    (inr tt, {| _athena_client := Some c;
                outside := outside p;
                calls := calls p |}).

Definition get_athena_client : M client :=
  fun p =>
    match _athena_client p with
    | None =>
        (c <- call (Boto3Client "athena" "eu-west-1")
                   (boto3_client "athena" "eu-west-1") ;;
         set_athena_client c ;;;
         ret c) p
    | Some c => ret c p
    end.

(** ** _execute_query_internal *)

(** The [while attempt < max_attempts] loop with [remaining] iterations
    left; [seen] holds [query_status] and [status] once an iteration has
    assigned them. *)
Fixpoint poll_loop (c : client) (query_execution_id : string)
    (remaining : nat) (seen : option (GetQueryExecutionOutput * string))
    : M (option (GetQueryExecutionOutput * string)) :=
  match remaining with
  | O => ret seen
  | S remaining' =>
      query_status <- call (GetQueryExecution query_execution_id)
                        (get_query_execution c query_execution_id) ;;
      qe <- getitem "QueryExecution" (QueryExecution query_status) ;;
      st <- getitem "Status" (Status qe) ;;
      status <- getitem "State" (State st) ;;
      if bool_decide (status ∈ ["SUCCEEDED"; "FAILED"; "CANCELLED"])
      then ret (Some (query_status, status))
      else
        sleep 1 ;;;
        poll_loop c query_execution_id remaining' (Some (query_status, status))
  end.

(** One turn of [for row in rows[1:11]]. *)
Definition render_row (row : Row) (response_text : string) : M string :=
  data <- getitem "Data" (Data row) ;;
  let values := map (fun col => default "NULL" (VarCharValue col)) data in
  ret (response_text +:+ String.concat " | " values +:+ nl).

(** The [SUCCEEDED] branch once [rows] is in hand. *)
Definition format_rows (rows : list Row) : M string :=
  match rows with
  | [] => ret "Query executed successfully but returned no results."
  | row0 :: _ =>
      data0 <- getitem "Data" (Data row0) ;;
      headers <- comprehension
                   (fun col => getitem "VarCharValue" (VarCharValue col))
                   data0 ;;
      let response_text := "Query executed successfully!" +:+ nl +:+ nl in
      let response_text :=
        response_text +:+ "Columns: " +:+ String.concat ", " headers
                      +:+ nl +:+ nl in
      let response_text :=
        response_text +:+ "Results (" +:+ pretty (Z.of_nat (length rows) - 1)
                      +:+ " rows):" +:+ nl in
      response_text <- for_each (take 10 (drop 1 rows)) render_row
                         response_text ;;
      let response_text :=
        if bool_decide (Z.of_nat (length rows) > 11)
        then response_text +:+ nl +:+ "... and "
                           +:+ pretty (Z.of_nat (length rows) - 11)
                           +:+ " more rows"
        else response_text in
      ret response_text
  end.

(** [rows = results['ResultSet']['Rows']] and what follows it. *)
Definition format_results (results : GetQueryResultsOutput) : M string :=
  rs <- getitem "ResultSet" (ResultSet results) ;;
  rows <- getitem "Rows" (Rows rs) ;;
  format_rows rows.

(** The [except Exception as e] clause. *)
Definition error_text (e : Exception) : string :=
  "Error: " +:+ str_exc e +:+ nl +:+ format_exc e.

(** The body of the [try]. *)
Definition execute_body (query output_location : string) : M string :=
  c <- get_athena_client ;;
  response <- call (StartQueryExecution query DATABASE_NAME output_location)
                (start_query_execution c query DATABASE_NAME
                   output_location) ;;
  query_execution_id <- getitem "QueryExecutionId"
                          (QueryExecutionId response) ;;
  seen <- poll_loop c query_execution_id max_attempts None ;;
  bound <- local "status" seen ;;
  let '(query_status, status) := bound in
  if bool_decide (status = "SUCCEEDED") then
    results <- call (GetQueryResults query_execution_id)
                 (get_query_results c query_execution_id) ;;
    format_results results
  else if bool_decide (status = "FAILED") then
    qe <- getitem "QueryExecution" (QueryExecution query_status) ;;
    st <- getitem "Status" (Status qe) ;;
    let error := default "Unknown error" (StateChangeReason st) in
    ret ("Query failed: " +:+ error)
  else if bool_decide (status = "CANCELLED") then
    ret "Query was cancelled."
  else
    ret ("Query timed out after " +:+ pretty max_attempts
         +:+ " seconds. Status: " +:+ status).

Definition _execute_query_internal (query output_location : string)
    : M string :=
  try_except (execute_body query output_location)
             (fun e => ret (error_text e)).

(** ** The tools

    An argument with a default is an [option]: [None] when the caller leaves
    it out. *)

Definition execute_athena_query (query : string)
    (output_location : option string) : M string :=
  _execute_query_internal query (default OUTPUT_LOCATION output_location).

Definition list_tables : M string :=
  try_except
    (let query := "SHOW TABLES IN " +:+ DATABASE_NAME in
     _execute_query_internal query OUTPUT_LOCATION)
    (fun e => ret (error_text e)).

Definition describe_table (table_name : string) : M string :=
  try_except
    (let query := "DESCRIBE " +:+ DATABASE_NAME +:+ "." +:+ table_name in
     _execute_query_internal query OUTPUT_LOCATION)
    (fun e => ret (error_text e)).

Definition get_table_sample (table_name : string) (limit : option Z)
    : M string :=
  let limit := default 10 limit in
  try_except
    (let query := "SELECT * FROM " +:+ DATABASE_NAME +:+ "." +:+ table_name
                  +:+ " LIMIT " +:+ pretty limit in
     _execute_query_internal query OUTPUT_LOCATION)
    (fun e => ret (error_text e)).

(** A tool invocation as the framework dispatches it. *)
Inductive tool : Type :=
| ExecuteAthenaQuery (query : string) (output_location : option string)
| ListTables
| DescribeTable (table_name : string)
| GetTableSample (table_name : string) (limit : option Z).

Definition invoke (t : tool) : M string :=
  match t with
  | ExecuteAthenaQuery query output_location =>
      execute_athena_query query output_location
  | ListTables => list_tables
  | DescribeTable table_name => describe_table table_name
  | GetTableSample table_name limit => get_table_sample table_name limit
  end.

(** What happens to a process between its start and any later moment: a
    tool runs, [get_athena_client] is called, or the world moves on. *)
Inductive step : process -> process -> Prop :=
| step_tool t p r p' : invoke t p = (r, p') -> step p p'
| step_client p r p' : get_athena_client p = (r, p') -> step p p'
| step_world p w :
    step p {| _athena_client := _athena_client p;
              outside := w;
              calls := calls p |}.

(** ** Reading the record of calls *)

(** The exception a call raised, if it raised. *)
Definition fault_of (ev : event) : option Exception :=
  match ev with
  | Boto3Client _ _ (inl e)
  | StartQueryExecution _ _ _ (inl e)
  | GetQueryExecution _ (inl e)
  | GetQueryResults _ (inl e) => Some e
  | _ => None
  end.

Definition faults (evs : list event) : list Exception :=
  omap fault_of evs.

(** The statements submitted, with database and output location. *)
Definition submitted (evs : list event) : list (string * string * string) :=
  omap (fun ev =>
          match ev with
          | StartQueryExecution q db loc _ => Some (q, db, loc)
          | _ => None
          end) evs.

(** The clients boto3 handed out. *)
Definition created (evs : list event) : list client :=
  omap (fun ev =>
          match ev with
          | Boto3Client _ _ (inr c) => Some c
          | _ => None
          end) evs.

(** The outcomes of the status polls, oldest first. *)
Definition polls (evs : list event)
    : list (Exception + GetQueryExecutionOutput) :=
  omap (fun ev =>
          match ev with
          | GetQueryExecution _ r => Some r
          | _ => None
          end) evs.

(** The result sets fetched. *)
Definition fetched (evs : list event) : list GetQueryResultsOutput :=
  omap (fun ev =>
          match ev with
          | GetQueryResults _ (inr res) => Some res
          | _ => None
          end) evs.

(** ** The shape of a run *)

(** How [get_athena_client] comes by its client, from the global before to
    the calls made. *)
Inductive connected : option client -> list event -> client -> Prop :=
| connected_reuse c : connected (Some c) [] c
| connected_new c :
    connected None [Boto3Client "athena" "eu-west-1" (inr c)] c.

(** The calls of the poll loop with [n] attempts left and what it leaves in
    [query_status] and [status]. *)
Inductive polled (id : string)
  : nat -> option (GetQueryExecutionOutput * string) -> list event ->
    Exception + option (GetQueryExecutionOutput * string) -> Prop :=
| polled_out seen : polled id 0 seen [] (inr seen)
| polled_fault n seen e :
    polled id (S n) seen [GetQueryExecution id (inl e)] (inl e)
| polled_malformed n seen qs e :
    read_state qs = inl e ->
    polled id (S n) seen [GetQueryExecution id (inr qs)] (inl e)
| polled_terminal n seen qs s :
    read_state qs = inr s -> terminal s ->
    polled id (S n) seen [GetQueryExecution id (inr qs)] (inr (Some (qs, s)))
| polled_waiting n seen qs s evs r :
    read_state qs = inr s -> ~ terminal s ->
    polled id n (Some (qs, s)) evs r ->
    polled id (S n) seen (GetQueryExecution id (inr qs) :: Sleep 1 :: evs) r.

(** What follows the loop, from what the loop left in [query_status] and
    [status]: the calls made and the outcome of the [try] body. *)
Inductive finished (id : string)
  : Exception + option (GetQueryExecutionOutput * string) -> list event ->
    Exception + string -> Prop :=
| finished_poll_fault e : finished id (inl e) [] (inl e)
| finished_fetch_fault qs e :
    finished id (inr (Some (qs, "SUCCEEDED")))
      [GetQueryResults id (inl e)] (inl e)
| finished_fetched qs res r :
    (forall p, format_results res p = (r, p)) ->
    finished id (inr (Some (qs, "SUCCEEDED")))
      [GetQueryResults id (inr res)] r
| finished_failed qs :
    finished id (inr (Some (qs, "FAILED"))) []
      (inr ("Query failed: " +:+ default "Unknown error" (reason_of qs)))
| finished_cancelled qs :
    finished id (inr (Some (qs, "CANCELLED"))) []
      (inr "Query was cancelled.")
| finished_timeout qs s :
    ~ terminal s ->
    finished id (inr (Some (qs, s))) []
      (inr ("Query timed out after 30 seconds. Status: " +:+ s)).

(** The calls of one run of the [try] body on statement [q], from the global
    before it to the global after it, with the body's outcome. *)
Inductive ran (q loc : string)
  : option client -> list event -> Exception + string -> option client ->
    Prop :=
| ran_no_client e :
    ran q loc None [Boto3Client "athena" "eu-west-1" (inl e)] (inl e) None
| ran_start_fault g conn c e :
    connected g conn c ->
    ran q loc g (conn ++ [StartQueryExecution q DATABASE_NAME loc (inl e)])
        (inl e) (Some c)
| ran_no_id g conn c resp :
    connected g conn c -> QueryExecutionId resp = None ->
    ran q loc g (conn ++ [StartQueryExecution q DATABASE_NAME loc (inr resp)])
        (inl (KeyError "QueryExecutionId")) (Some c)
| ran_polled g conn c resp id pevs pr fevs r :
    connected g conn c -> QueryExecutionId resp = Some id ->
    polled id max_attempts None pevs pr ->
    finished id pr fevs r ->
    ran q loc g
        (conn ++ StartQueryExecution q DATABASE_NAME loc (inr resp)
              :: pevs ++ fevs)
        r (Some c).

(** The calls made between [p] and a later [p']. *)
Definition new_calls (p p' : process) : list event :=
  drop (length (calls p)) (calls p').

(** What the handler makes of the body's outcome. *)
Definition outcome_text (r : Exception + string) : string :=
  match r with
  | inl e => error_text e
  | inr text => text
  end.

End Server.

(** ** The report and the statements, by the words of the specification *)

(** The statement each tool is specified to submit. *)
Definition statement (t : tool) : string :=
  match t with
  | ExecuteAthenaQuery query _ => query
  | ListTables => "SHOW TABLES IN drm_text2sql_db"
  | DescribeTable table_name => "DESCRIBE drm_text2sql_db." +:+ table_name
  | GetTableSample table_name limit =>
      "SELECT * FROM drm_text2sql_db." +:+ table_name +:+ " LIMIT "
      +:+ pretty (default 10 limit)
  end.

(** The destination each tool is specified to name. *)
Definition destination (t : tool) : string :=
  match t with
  | ExecuteAthenaQuery _ (Some output_location) => output_location
  | _ => "s3://glab-drm-query-results/"
  end.

(** Column list and total data-row count. *)
Definition report_head (columns : list string) (n : nat) : string :=
  "Query executed successfully!" +:+ nl +:+ nl +:+
  "Columns: " +:+ String.concat ", " columns +:+ nl +:+ nl +:+
  "Results (" +:+ pretty (Z.of_nat n) +:+ " rows):" +:+ nl.

(** A cell as the report shows it. *)
Definition cell_text (col : Datum) : string :=
  match VarCharValue col with
  | Some v => v
  | None => "NULL"
  end.

(** One data row, pipe-joined, on a line of its own. *)
Definition row_line (cells : list Datum) : string :=
  String.concat " | " (map cell_text cells) +:+ nl.

(** The lines of the rows shown, one after the other. *)
Fixpoint row_lines (shown : list (list Datum)) : string :=
  match shown with
  | [] => ""
  | cells :: shown' => row_line cells +:+ row_lines shown'
  end.

(** The note on the [k] data rows left out. *)
Definition more_rows (k : nat) : string :=
  nl +:+ "... and " +:+ pretty (Z.of_nat k) +:+ " more rows".

(** A result set whose rows all carry their cells. *)
Definition rows_of (cellss : list (list Datum)) : list Row :=
  map (fun cells => {| Data := Some cells |}) cellss.

(** ** A scripted host

    A host that answers from a script: the [n]-th status poll gets
    [on_poll n].  The world is the number of polls answered so far. *)

Record script := {
  on_client : Exception + nat;
  on_start : Exception + StartQueryExecutionOutput;
  on_poll : nat -> Exception + GetQueryExecutionOutput;
  on_results : Exception + GetQueryResultsOutput
}.

Definition scripted (s : script) : Host nat nat := {|
  boto3_client _ _ w := (on_client s, w);
  start_query_execution _ _ _ _ w := (on_start s, w);
  get_query_execution _ _ w := (on_poll s w, S w);
  get_query_results _ _ w := (on_results s, w);
  time_sleep _ w := w;
  format_exc _ := "Traceback (most recent call last):" +:+ nl
|}.

(** A freshly started process. *)
Definition fresh {world client} (w : world) : @process world client :=
  {| _athena_client := None; outside := w; calls := [] |}.

Definition status_of (state : string) (reason : option string)
    : GetQueryExecutionOutput :=
  {| QueryExecution :=
       Some {| Status :=
                 Some {| State := Some state;
                         StateChangeReason := reason |} |} |}.

Definition result_of (rows : list (list (option string)))
    : GetQueryResultsOutput :=
  {| ResultSet :=
       Some {| Rows :=
                 Some (map (fun r => {| Data := Some (map Build_Datum r) |})
                           rows) |} |}.

Definition started (id : string) : StartQueryExecutionOutput :=
  {| QueryExecutionId := Some id |}.

(** ** Scripts used as examples *)

(** Two polls see the query running, the third sees [state]. *)
Definition ends_in (state : string) (reason : option string)
    (results : Exception + GetQueryResultsOutput) : script :=
  {| on_client := inr 1%nat;
     on_start := inr (started "q-1");
     on_poll n :=
       if (n <? 2)%nat then inr (status_of "RUNNING" None)
       else inr (status_of state reason);
     on_results := results |}.

(** The query stays queued for ever. *)
Definition never_ends : script :=
  {| on_client := inr 1%nat;
     on_start := inr (started "q-1");
     on_poll _ := inr (status_of "QUEUED" None);
     on_results := inl (Raised "not ready") |}.

(** A header row and nothing under it. *)
Definition header_only : GetQueryResultsOutput :=
  result_of [[Some "id"; Some "name"]].

(** Two data rows with a missing cell each. *)
Definition two_rows : GetQueryResultsOutput :=
  result_of [[Some "id"; Some "name"]; [Some "1"; None]; [None; Some "x"]].

(** Twelve data rows. *)
Definition twelve_rows : GetQueryResultsOutput :=
  result_of ([Some "n"] :: repeat [Some "7"] 12).

(** A header cell without a value. *)
Definition nameless_column : GetQueryResultsOutput :=
  result_of [[Some "id"; None]; [Some "1"; Some "x"]].

(** The host on which a query succeeds at the third poll with [results],
    and the run of a query on it. *)
Definition succeeding (results : GetQueryResultsOutput) : Host nat nat :=
  scripted (ends_in "SUCCEEDED" None (inr results)).

Definition succeeds_with (results : GetQueryResultsOutput)
    : (Exception + string) * @process nat nat :=
  @_execute_query_internal nat nat (succeeding results)
    "SELECT id, name FROM t" OUTPUT_LOCATION (fresh 0%nat).

(** The service turns the submission down. *)
Definition throttled : script :=
  {| on_client := inr 1%nat;
     on_start := inl (Raised "ThrottlingException: Rate exceeded");
     on_poll _ := inl (Raised "not polled");
     on_results := inl (Raised "not fetched") |}.

(** A fresh process after a first call of [get_athena_client], and the same
    process after a [list_tables] on top of it. *)
Definition first_client : @process nat nat :=
  snd (@get_athena_client nat nat (succeeding two_rows) (fresh 0%nat)).

Definition after_list_tables : @process nat nat :=
  snd (@invoke nat nat (succeeding two_rows) ListTables first_client).

(** ** More readings of the record of calls *)

(** The seconds of each [time.sleep], oldest first. *)
Definition sleeps {client} (evs : list (@event client)) : list Z :=
  omap (fun ev =>
          match ev with
          | Sleep seconds => Some seconds
          | _ => None
          end) evs.

(** What each [boto3.client] call came back with. *)
Definition client_requests {client} (evs : list (@event client))
    : list (Exception + client) :=
  omap (fun ev =>
          match ev with
          | Boto3Client _ _ r => Some r
          | _ => None
          end) evs.

(** What each [get_query_results] call came back with. *)
Definition fetch_attempts {client} (evs : list (@event client))
    : list (Exception + GetQueryResultsOutput) :=
  omap (fun ev =>
          match ev with
          | GetQueryResults _ r => Some r
          | _ => None
          end) evs.

(** The [QueryExecutionId] each poll and each fetch was made with. *)
Definition handles {client} (evs : list (@event client)) : list string :=
  omap (fun ev =>
          match ev with
          | GetQueryExecution id _ | GetQueryResults id _ => Some id
          | _ => None
          end) evs.

(** The [QueryExecutionId]s the service handed out. *)
Definition issued {client} (evs : list (@event client)) : list string :=
  omap (fun ev =>
          match ev with
          | StartQueryExecution _ _ _ (inr resp) => QueryExecutionId resp
          | _ => None
          end) evs.

(** A poll that came back with a state after which the loop goes on. *)
Definition waitingb (o : Exception + GetQueryExecutionOutput) : bool :=
  match o with
  | inl _ => false
  | inr qs =>
      match read_state qs with
      | inl _ => false
      | inr s => negb (bool_decide (s ∈ ["SUCCEEDED"; "FAILED"; "CANCELLED"]))
      end
  end.

(** [text.startswith(prefix)] *)
Definition starts (text prefix : string) : Prop :=
  exists rest, text = prefix +:+ rest.

(** ** More scripts *)

(** boto3 cannot build a client. *)
Definition no_credentials : script :=
  {| on_client := inl (Raised "NoCredentialsError: Unable to locate credentials");
     on_start := inl (Raised "not submitted");
     on_poll _ := inl (Raised "not polled");
     on_results := inl (Raised "not fetched") |}.

(** The submission comes back without a [QueryExecutionId]. *)
Definition no_handle : script :=
  {| on_client := inr 1%nat;
     on_start := inr {| QueryExecutionId := None |};
     on_poll _ := inl (Raised "not polled");
     on_results := inl (Raised "not fetched") |}.

(** The second poll comes back without a [State]. *)
Definition stateless_poll : GetQueryExecutionOutput :=
  {| QueryExecution :=
       Some {| Status :=
                 Some {| State := None; StateChangeReason := None |} |} |}.

Definition garbled : script :=
  {| on_client := inr 1%nat;
     on_start := inr (started "q-1");
     on_poll n :=
       if (n <? 1)%nat then inr (status_of "RUNNING" None)
       else inr stateless_poll;
     on_results := inl (Raised "not fetched") |}.

(** Results without their [Rows]. *)
Definition rowless : GetQueryResultsOutput :=
  {| ResultSet := Some {| Rows := None |} |}.

(** A header, ten data rows, and two more rows of which one has no [Data]. *)
Definition ragged_tail : GetQueryResultsOutput :=
  {| ResultSet :=
       Some {| Rows :=
                 Some (rows_of (map (map Build_Datum)
                                    ([Some "n"] :: repeat [Some "7"] 10))
                       ++ [ {| Data := None |};
                            {| Data := Some [ {| VarCharValue := None |} ] |} ])
            |} |}.

(** A header and a second data row without its [Data]. *)
Definition torn_row : GetQueryResultsOutput :=
  {| ResultSet :=
       Some {| Rows :=
                 Some (rows_of (map (map Build_Datum)
                                    [[Some "n"]; [Some "7"]])
                       ++ [ {| Data := None |} ]) |} |}.

(** The run of [list_tables] in a fresh process on the host of [s]. *)
Definition lists_tables (s : script)
    : (Exception + string) * @process nat nat :=
  @invoke nat nat (scripted s) ListTables (fresh 0%nat).

(** * Properties *)

(** ** Text *)

Lemma append_assoc (a b c : string) : (a +:+ b) +:+ c = a +:+ (b +:+ c).
Proof. induction a as [|x a IH]; simpl; [reflexivity | now rewrite IH]. Qed.

Lemma append_nil_r (a : string) : a +:+ "" = a.
Proof. induction a as [|x a IH]; simpl; [reflexivity | now rewrite IH]. Qed.

Lemma contains_intro (pre needle post : string) :
  contains (pre +:+ needle +:+ post) needle.
Proof. now exists pre, post. Qed.

Lemma contains_suffix (pre needle : string) : contains (pre +:+ needle) needle.
Proof. exists pre, ""%string. now rewrite append_nil_r. Qed.

Lemma starts_with_spec (needle hay : string) :
  starts_with needle hay = true <-> exists post, hay = needle +:+ post.
Proof.
  revert hay. induction needle as [|a n IH]; intros hay; simpl.
  - split; [intros _; now exists hay | reflexivity].
  - destruct hay as [|b h].
    + split; [discriminate | intros [post Hp]; discriminate].
    + destruct (decide (a = b)) as [->|Hne].
      * rewrite IH. split; intros [post Hp]; exists post.
        -- now rewrite Hp.
        -- now injection Hp.
      * split; [discriminate | intros [post Hp]; injection Hp; congruence].
Qed.

Lemma containsb_spec (hay needle : string) :
  containsb hay needle = true <-> contains hay needle.
Proof.
  induction hay as [|b h IH]; simpl.
  - rewrite orb_false_r, starts_with_spec. split.
    + intros [post Hp]. now exists ""%string, post.
    + intros ([|x pre] & post & Hp); [now exists post | discriminate].
  - rewrite orb_true_iff, starts_with_spec, IH. split.
    + intros [[post Hp] | (pre & post & Hp)].
      * now exists ""%string, post.
      * exists (String b pre), post. simpl. now rewrite Hp.
    + intros ([|x pre] & post & Hp).
      * left. now exists post.
      * right. injection Hp as _ Hp. now exists pre, post.
Qed.

Lemma not_contains (hay needle : string) :
  containsb hay needle = false -> ~ contains hay needle.
Proof.
  intros Hb Hc. apply containsb_spec in Hc. congruence.
Qed.

(** ** Runs and the calls they make *)

(** Closes [terminal s] for one of the three terminal states. *)
Ltac is_terminal := unfold terminal; rewrite !elem_of_cons; tauto.

Section Runs.

Context {world client : Type} `{!Host world client}.

Implicit Types (p : @process world client).
Implicit Types (evs pevs fevs conn : list (@event client)).
Implicit Types (g : option client) (c : client).

Local Abbreviation finished := (@finished world client).
Local Abbreviation ran := (@ran world client).

Lemma terminal_dec (s : string) :
  bool_decide (s ∈ ["SUCCEEDED"; "FAILED"; "CANCELLED"]) = true <-> terminal s.
Proof. unfold terminal. apply bool_decide_eq_true. Qed.

Lemma get_athena_client_connected p r p' :
  get_athena_client p = (r, p') ->
  (exists c conn,
      r = inr c /\ connected (_athena_client p) conn c /\
      calls p' = calls p ++ conn /\ _athena_client p' = Some c) \/
  (exists e,
      r = inl e /\ _athena_client p = None /\ _athena_client p' = None /\
      calls p' = calls p ++ [Boto3Client "athena" "eu-west-1" (inl e)]).
Proof.
  unfold get_athena_client. destruct (_athena_client p) as [c|] eqn:Hg.
  - intros [= <- <-]. left. exists c, []. rewrite app_nil_r.
    repeat split; [constructor | assumption].
  - unfold bind, call, set_athena_client, ret.
    destruct (boto3_client "athena" "eu-west-1" (outside p)) as [[e|c] w];
      intros [= <- <-]; simpl.
    + right. exists e. repeat split. assumption.
    + left. exists c, [Boto3Client "athena" "eu-west-1" (inr c)].
      repeat split. constructor.
Qed.

Lemma getitem_state_run {B} qs (k : string -> M B) p :
  bind (getitem "QueryExecution" (QueryExecution qs))
    (fun qe => bind (getitem "Status" (Status qe))
       (fun st => bind (getitem "State" (State st)) k)) p =
  match read_state qs with
  | inl e => (inl e, p)
  | inr s => k s p
  end.
Proof.
  unfold read_state, bind, getitem, ret, raise.
  destruct (QueryExecution qs) as [qe|]; [|reflexivity].
  destruct (Status qe) as [st|]; [|reflexivity].
  destruct (State st) as [s|]; reflexivity.
Qed.

Lemma poll_loop_polled c id n seen p r p' :
  poll_loop c id n seen p = (r, p') ->
  exists evs,
    calls p' = calls p ++ evs /\ _athena_client p' = _athena_client p /\
    polled id n seen evs r.
Proof.
  revert seen p. induction n as [|n IH]; intros seen p; simpl.
  - intros [= <- <-]. exists []. rewrite app_nil_r.
    repeat split. constructor.
  - unfold bind at 1. unfold call at 1.
    destruct (get_query_execution c id (outside p)) as [[e|qs] w].
    { intros [= <- <-]. eexists. repeat split. constructor. }
    rewrite getitem_state_run.
    destruct (read_state qs) as [e|s] eqn:Hs.
    { intros [= <- <-]. eexists. repeat split. now constructor. }
    destruct (bool_decide _) eqn:Ht.
    { intros [= <- <-]. eexists. repeat split.
      apply polled_terminal; [assumption | now apply terminal_dec]. }
    unfold bind at 1. unfold sleep at 1. intros Hrun.
    apply IH in Hrun as (evs & Hc & Hg & Hp). simpl in Hc, Hg.
    exists (GetQueryExecution id (inr qs) :: Sleep 1 :: evs).
    repeat split.
    + rewrite Hc, <- !app_assoc. reflexivity.
    + assumption.
    + apply polled_waiting with s; [assumption | | assumption].
      rewrite <- terminal_dec. congruence.
Qed.

(** *** Steps that touch neither the world nor the global *)

Local Abbreviation pure m := (exists r, forall p, m p = (r, p)).

Lemma pure_ret {A} (a : A) : pure (ret a).
Proof. now exists (inr a). Qed.

Lemma pure_getitem {A} key (field : option A) : pure (getitem key field).
Proof. destruct field as [v|]; [now exists (inr v) | now eexists]. Qed.

Lemma pure_bind {A B} (m : M A) (k : A -> M B) :
  pure m -> (forall a, pure (k a)) -> pure (bind m k).
Proof.
  intros [[e|a] Hm] Hk.
  - exists (inl e). intros p. unfold bind. now rewrite Hm.
  - destruct (Hk a) as [r Hr]. exists r. intros p. unfold bind.
    now rewrite Hm, Hr.
Qed.

Lemma pure_comprehension {A B} (f : A -> M B) (l : list A) :
  (forall x, pure (f x)) -> pure (comprehension f l).
Proof.
  intros Hf. induction l as [|x l IH]; simpl.
  - apply pure_ret.
  - apply pure_bind; [apply Hf | intros y].
    apply pure_bind; [apply IH | intros ys; apply pure_ret].
Qed.

Lemma pure_for_each {A S} (l : list A) (body : A -> S -> M S) (acc : S) :
  (forall x s, pure (body x s)) -> pure (for_each l body acc).
Proof.
  intros Hb. revert acc. induction l as [|x l IH]; intros acc; simpl.
  - apply pure_ret.
  - apply pure_bind; [apply Hb | intros acc'; apply IH].
Qed.

Lemma pure_render_row row text : pure (render_row row text).
Proof.
  unfold render_row. apply pure_bind; [apply pure_getitem | intros data].
  apply pure_ret.
Qed.

Lemma pure_format_rows rows : pure (format_rows rows).
Proof.
  destruct rows as [|row0 rows]; simpl; [apply pure_ret |].
  apply pure_bind; [apply pure_getitem | intros data0].
  apply pure_bind.
  { apply pure_comprehension. intros col. apply pure_getitem. }
  intros headers. apply pure_bind; [| intros text; apply pure_ret].
  apply pure_for_each. intros row text. apply pure_render_row.
Qed.

Lemma pure_format_results res : pure (format_results res).
Proof.
  unfold format_results.
  apply pure_bind; [apply pure_getitem | intros rs].
  apply pure_bind; [apply pure_getitem | intros rows].
  apply pure_format_rows.
Qed.

(** *** The poll loop *)

Lemma polled_seen id n seen evs res :
  polled id n seen evs (inr res) ->
  (n = O /\ res = seen /\ evs = []) \/
  (exists qs s,
      res = Some (qs, s) /\ read_state qs = inr s /\
      last (polls evs) = Some (inr qs)).
Proof.
  intros Hp. remember (inr res) as r eqn:Hr. revert res Hr.
  induction Hp as [seen | n seen e | n seen qs e He | n seen qs s Hs Ht
                  | n seen qs s evs r Hs Ht Hp IH]; intros res Hr.
  - injection Hr as <-. now left.
  - discriminate.
  - discriminate.
  - injection Hr as <-. right. now exists qs, s.
  - right. destruct (IH res Hr) as [(_ & -> & ->) | (qs' & s' & -> & Hs' & Hl)].
    + now exists qs, s.
    + exists qs', s'. repeat split; [assumption |].
      change (polls (GetQueryExecution id (inr qs) :: Sleep 1 :: evs))
        with (inr qs :: polls evs).
      destruct (polls evs); [discriminate | exact Hl].
Qed.

(** *** The body of the [try] *)

Lemma reason_of_read qs s :
  read_state qs = inr s ->
  exists qe st,
    QueryExecution qs = Some qe /\ Status qe = Some st /\
    reason_of qs = StateChangeReason st.
Proof.
  unfold read_state, reason_of. destruct (QueryExecution qs) as [qe|];
    [|discriminate].
  destruct qe as [[st|]]; simpl; [|discriminate].
  intros _. now exists {| Status := Some st |}, st.
Qed.

Lemma execute_body_ran q loc p r p' :
  execute_body q loc p = (r, p') ->
  exists evs,
    calls p' = calls p ++ evs /\
    ran q loc (_athena_client p) evs r (_athena_client p').
Proof.
  unfold execute_body. unfold bind at 1.
  destruct (get_athena_client p) as [[e|c] p1] eqn:Hc;
    apply get_athena_client_connected in Hc
      as [(c' & conn & Hr & Hconn & Hcalls & Hg) | (e' & Hr & Hg & Hg' & Hcalls)];
    try discriminate.
  { injection Hr as <-. intros [= <- <-]. eexists. split; [eassumption |].
    rewrite Hg, Hg'. constructor. }
  injection Hr as <-. unfold bind at 1. unfold call at 1.
  destruct (start_query_execution c q DATABASE_NAME loc (outside p1))
    as [[e|resp] w].
  { intros [= <- <-]. eexists. simpl. split.
    - rewrite Hcalls, <- app_assoc. reflexivity.
    - rewrite Hg. now constructor. }
  unfold bind at 1. unfold getitem at 1.
  destruct (QueryExecutionId resp) as [id|] eqn:Hid.
  2:{ intros [= <- <-]. eexists. simpl. split.
      - rewrite Hcalls, <- app_assoc. reflexivity.
      - rewrite Hg. now constructor. }
  unfold ret at 1. unfold bind at 1.
  match goal with
  | |- context [poll_loop c id max_attempts None ?p2] =>
      destruct (poll_loop c id max_attempts None p2) as [pr p3] eqn:Hpoll
  end.
  apply poll_loop_polled in Hpoll as (pevs & Hpc & Hpg & Hpolled).
  simpl in Hpc, Hpg.
  assert (Hshape : forall fevs r0 p0,
             calls p0 = calls p3 ++ fevs ->
             _athena_client p0 = _athena_client p3 ->
             finished id pr fevs r0 ->
             exists evs,
               calls p0 = calls p ++ evs /\
               ran q loc (_athena_client p) evs r0 (_athena_client p0)).
  { intros fevs r0 p0 H0 Hg0 Hfin.
    exists (conn ++ StartQueryExecution q DATABASE_NAME loc (inr resp)
                 :: pevs ++ fevs).
    split.
    - rewrite H0, Hpc, Hcalls, <- !app_assoc. reflexivity.
    - rewrite Hg0, Hpg, Hg. now apply ran_polled with id pr. }
  destruct pr as [e|[[qs s]|]].
  - intros [= <- <-]. apply Hshape with [];
      [now rewrite app_nil_r | reflexivity | constructor].
  - destruct (polled_seen _ _ _ _ _ Hpolled)
      as [(Hn & _) | (qs' & s' & Hq & Hs & _)]; [discriminate |].
    injection Hq as <- <-.
    unfold local, ret at 1, bind at 1.
    destruct (bool_decide (s = "SUCCEEDED")) eqn:H1.
    { apply bool_decide_eq_true in H1 as ->.
      unfold bind at 1. unfold call at 1.
      destruct (get_query_results c id (outside p3)) as [[e|res] w'].
      - intros [= <- <-]. eapply Hshape; [reflexivity | reflexivity |].
        constructor.
      - destruct (pure_format_results res) as [r0 Hr0]. rewrite Hr0.
        intros [= <- <-]. eapply Hshape; [reflexivity | reflexivity |].
        now constructor. }
    apply bool_decide_eq_false in H1.
    destruct (bool_decide (s = "FAILED")) eqn:H2.
    { apply bool_decide_eq_true in H2 as ->.
      destruct (reason_of_read _ _ Hs) as (qe & st & Hqe & Hst & Hreason).
      unfold bind, getitem, ret. rewrite Hqe, Hst, <- Hreason.
      intros [= <- <-]. apply Hshape with [];
        [now rewrite app_nil_r | reflexivity | constructor]. }
    apply bool_decide_eq_false in H2.
    destruct (bool_decide (s = "CANCELLED")) eqn:H3.
    { apply bool_decide_eq_true in H3 as ->. unfold ret.
      intros [= <- <-]. apply Hshape with [];
        [now rewrite app_nil_r | reflexivity | constructor]. }
    apply bool_decide_eq_false in H3. unfold ret.
    intros [= <- <-]. apply Hshape with [];
      [now rewrite app_nil_r | reflexivity |].
    change (pretty max_attempts) with "30"%string.
    apply finished_timeout. unfold terminal.
    rewrite !elem_of_cons, elem_of_nil. tauto.
  - destruct (polled_seen _ _ _ _ _ Hpolled)
      as [(Hn & _) | (qs' & s' & Hq & _)]; discriminate.
Qed.

(** *** The functions as called *)

Lemma new_calls_app p p' evs :
  calls p' = calls p ++ evs -> new_calls p p' = evs.
Proof. intros Hc. unfold new_calls. rewrite Hc. apply drop_app_length. Qed.

Lemma internal_run q loc p out p' :
  _execute_query_internal q loc p = (out, p') ->
  exists r,
    out = inr (outcome_text r) /\
    ran q loc (_athena_client p) (new_calls p p') r (_athena_client p').
Proof.
  unfold _execute_query_internal, try_except.
  destruct (execute_body q loc p) as [r p1] eqn:Hb.
  apply execute_body_ran in Hb as (evs & Hc & Hran).
  apply new_calls_app in Hc. rewrite <- Hc in Hran.
  destruct r as [e|text]; intros [= <- <-]; eexists; (split; [|eassumption]);
    reflexivity.
Qed.

Lemma internal_returns q loc p :
  exists text, fst (_execute_query_internal q loc p) = inr text.
Proof.
  destruct (_execute_query_internal q loc p) as [out p'] eqn:Hrun.
  apply internal_run in Hrun as (r & -> & _). now eexists.
Qed.

Lemma try_except_returned {A} (m : M A) handler p :
  (exists a, fst (m p) = inr a) -> try_except m handler p = m p.
Proof.
  intros [a Ha]. unfold try_except. destruct (m p) as [[e|a'] p'];
    [discriminate | reflexivity].
Qed.

Lemma invoke_delegates t p :
  invoke t p = _execute_query_internal (statement t) (destination t) p.
Proof.
  destruct t as [q [loc|] | | table | table limit]; simpl;
    try reflexivity;
    unfold list_tables, describe_table, get_table_sample;
    rewrite try_except_returned by apply internal_returns; reflexivity.
Qed.

Lemma invoke_run t p out p' :
  invoke t p = (out, p') ->
  exists r,
    out = inr (outcome_text r) /\
    ran (statement t) (destination t) (_athena_client p) (new_calls p p') r
        (_athena_client p').
Proof. rewrite invoke_delegates. apply internal_run. Qed.

(** *** What the record of a run holds *)

Lemma faults_app evs1 evs2 : faults (evs1 ++ evs2) = faults evs1 ++ faults evs2.
Proof. apply omap_app. Qed.

Lemma submitted_app evs1 evs2 :
  submitted (evs1 ++ evs2) = submitted evs1 ++ submitted evs2.
Proof. apply omap_app. Qed.

Lemma created_app evs1 evs2 :
  created (evs1 ++ evs2) = created evs1 ++ created evs2.
Proof. apply omap_app. Qed.

Lemma polls_app evs1 evs2 : polls (evs1 ++ evs2) = polls evs1 ++ polls evs2.
Proof. apply omap_app. Qed.

Lemma fetched_app evs1 evs2 :
  fetched (evs1 ++ evs2) = fetched evs1 ++ fetched evs2.
Proof. apply omap_app. Qed.

Lemma connected_record g conn c :
  connected g conn c ->
  faults conn = [] /\ submitted conn = [] /\ polls conn = [] /\
  fetched conn = [] /\
  created conn = match g with Some _ => [] | None => [c] end.
Proof. intros []; repeat split. Qed.

Lemma polled_record id n seen evs r :
  polled id n seen evs r ->
  submitted evs = [] /\ created evs = [] /\ fetched evs = [].
Proof.
  induction 1 as [| | | | n seen qs s evs r Hs Ht Hp IH]; try (repeat split).
  all: destruct IH as (H1 & H2 & H3); assumption.
Qed.

Lemma polled_faults id n seen evs r e :
  polled id n seen evs r -> e ∈ faults evs -> r = inl e.
Proof.
  induction 1 as [| n seen e' | | | n seen qs s evs r Hs Ht Hp IH];
    simpl; intros He.
  - inversion He.
  - apply list_elem_of_singleton in He. now subst.
  - inversion He.
  - inversion He.
  - apply IH, He.
Qed.

Lemma polled_count id n seen evs r :
  polled id n seen evs r -> (length (polls evs) <= n)%nat.
Proof.
  induction 1 as [| | | | n seen qs s evs r Hs Ht Hp IH]; simpl; lia.
Qed.

Lemma polled_observed_terminal id n seen evs r qs s :
  polled id n seen evs r ->
  inr qs ∈ polls evs -> read_state qs = inr s -> terminal s ->
  r = inr (Some (qs, s)).
Proof.
  induction 1 as [| | n seen qs' e He | n seen qs' s' Hs' Ht'
                 | n seen qs' s' evs r Hs' Ht' Hp IH];
    simpl; intros Hin Hs Ht.
  - inversion Hin.
  - apply list_elem_of_singleton in Hin. discriminate.
  - apply list_elem_of_singleton in Hin. injection Hin as ->. congruence.
  - apply list_elem_of_singleton in Hin. injection Hin as ->. congruence.
  - apply elem_of_cons in Hin as [Heq | Hin].
    + injection Heq as ->. congruence.
    + now apply IH.
Qed.

Lemma polled_all_waiting id n seen evs r :
  polled id n seen evs r ->
  (forall o, o ∈ polls evs ->
             exists qs s, o = inr qs /\ read_state qs = inr s /\ ~ terminal s) ->
  exists res, r = inr res /\ length (polls evs) = n.
Proof.
  induction 1 as [seen | n seen e | n seen qs e He | n seen qs s Hs Ht
                 | n seen qs s evs r Hs Ht Hp IH];
    simpl; intros Hw.
  - now exists seen.
  - destruct (Hw (inl e)) as (? & ? & ? & _); [left | discriminate].
  - destruct (Hw (inr qs)) as (qs' & s' & Heq & Hs' & _); [left |].
    injection Heq as <-. congruence.
  - destruct (Hw (inr qs)) as (qs' & s' & Heq & Hs' & Hn); [left |].
    injection Heq as <-. congruence.
  - destruct IH as (res & -> & Hlen).
    + intros o Ho. apply Hw. now right.
    + exists res. split; [reflexivity | simpl; lia].
Qed.

Lemma finished_record id pr fevs r :
  finished id pr fevs r ->
  polls fevs = [] /\ submitted fevs = [] /\ created fevs = [].
Proof. intros []; repeat split. Qed.

Lemma finished_faults id pr fevs r e :
  finished id pr fevs r -> pr = inl e \/ e ∈ faults fevs -> r = inl e.
Proof.
  intros [] [Hpr | Hin]; simpl in *; try discriminate;
    try (now inversion Hin).
  congruence.
Qed.

(** The polls of a run are the polls of its loop. *)
Lemma ran_polls q loc g evs r g' :
  ran q loc g evs r g' ->
  (polls evs = [] /\ fetched evs = []) \/
  exists id pevs pr fevs,
    polled id max_attempts None pevs pr /\ finished id pr fevs r /\
    polls evs = polls pevs /\ fetched evs = fetched fevs.
Proof.
  intros [e | g0 conn c e Hc | g0 conn c resp Hc Hid
         | g0 conn c resp id pevs pr fevs r0 Hc Hid Hp Hf].
  - now left.
  - left. rewrite polls_app, fetched_app.
    now destruct (connected_record _ _ _ Hc) as (_ & _ & -> & -> & _).
  - left. rewrite polls_app, fetched_app.
    now destruct (connected_record _ _ _ Hc) as (_ & _ & -> & -> & _).
  - right. exists id, pevs, pr, fevs. repeat split; try assumption.
    + destruct (connected_record _ _ _ Hc) as (_ & _ & H1 & _).
      destruct (finished_record _ _ _ _ Hf) as (H2 & _).
      rewrite polls_app, H1. simpl. rewrite polls_app, H2.
      apply app_nil_r.
    + destruct (connected_record _ _ _ Hc) as (_ & _ & _ & H1 & _).
      destruct (polled_record _ _ _ _ _ Hp) as (_ & _ & H2).
      rewrite fetched_app, H1. simpl. rewrite fetched_app, H2.
      reflexivity.
Qed.

Lemma ran_observed_terminal q loc g evs r g' qs s :
  ran q loc g evs r g' ->
  inr qs ∈ polls evs -> read_state qs = inr s -> terminal s ->
  exists id fevs,
    finished id (inr (Some (qs, s))) fevs r /\ fetched evs = fetched fevs.
Proof.
  intros Hran Hin Hs Ht.
  destruct (ran_polls _ _ _ _ _ _ Hran)
    as [[Hnil _] | (id & pevs & pr & fevs & Hp & Hf & Hpolls & Hfetched)].
  - rewrite Hnil in Hin. inversion Hin.
  - rewrite Hpolls in Hin.
    rewrite (polled_observed_terminal _ _ _ _ _ _ _ Hp Hin Hs Ht) in Hf.
    now exists id, fevs.
Qed.

(** A run submits at most once, polls at most [max_attempts] times and
    fetches at most once. *)
Lemma ran_bounded q loc g evs r g' :
  ran q loc g evs r g' ->
  (length (submitted evs) <= 1)%nat /\
  (length (polls evs) <= max_attempts)%nat /\
  (length (fetched evs) <= 1)%nat.
Proof.
  intros [e | g0 conn c e Hc | g0 conn c resp Hc Hid
         | g0 conn c resp id pevs pr fevs r0 Hc Hid Hp Hf];
    try (destruct (connected_record _ _ _ Hc) as (_ & H1 & H2 & H3 & _));
    rewrite ?submitted_app, ?polls_app, ?fetched_app, ?H1, ?H2, ?H3; simpl;
    try (unfold max_attempts; lia).
  destruct (polled_record _ _ _ _ _ Hp) as (H4 & _ & H5).
  destruct (finished_record _ _ _ _ Hf) as (H6 & H7 & _).
  pose proof (polled_count _ _ _ _ _ Hp) as Hcount.
  rewrite submitted_app, polls_app, fetched_app, H4, H5, H6, H7.
  simpl. repeat split; [lia | now rewrite app_nil_r |].
  destruct Hf; simpl; lia.
Qed.

Lemma ran_faults q loc g evs r g' e :
  ran q loc g evs r g' -> e ∈ faults evs -> r = inl e.
Proof.
  intros [e' | g0 conn c e' Hc | g0 conn c resp Hc Hid
         | g0 conn c resp id pevs pr fevs r0 Hc Hid Hp Hf];
    try (destruct (connected_record _ _ _ Hc) as (Hfc & _));
    rewrite ?faults_app, ?Hfc; simpl.
  - intros Hin. apply list_elem_of_singleton in Hin. now subst.
  - intros Hin. apply list_elem_of_singleton in Hin. now subst.
  - intros Hin. inversion Hin.
  - rewrite faults_app. intros Hin. apply elem_of_app in Hin as [Hin | Hin].
    + apply (finished_faults _ _ _ _ _ Hf). left.
      apply (polled_faults _ _ _ _ _ _ Hp Hin).
    + apply (finished_faults _ _ _ _ _ Hf). now right.
Qed.

End Runs.

(** ** Formatting the rows *)

Section Formatting.

Context {world client : Type} `{!Host world client}.

Implicit Types (p : @process world client).
Implicit Types (evs : list (@event client)) (g : option client).

Local Abbreviation ran := (@ran world client).

Lemma bind_returns {A B} (m : M A) (k : A -> M B) p a p' :
  m p = (inr a, p') -> bind m k p = k a p'.
Proof. intros Hm. unfold bind. now rewrite Hm. Qed.

Lemma bind_raises {A B} (m : M A) (k : A -> M B) p e p' :
  m p = (inl e, p') -> bind m k p = (inl e, p').
Proof. intros Hm. unfold bind. now rewrite Hm. Qed.

Lemma ran_fetched_result q loc g evs r g' res :
  ran q loc g evs r g' -> res ∈ fetched evs ->
  forall p, format_results res p = (r, p).
Proof.
  intros Hran Hin.
  destruct (ran_polls _ _ _ _ _ _ Hran)
    as [[_ Hnil] | (id & pevs & pr & fevs & _ & Hf & _ & Hfetched)].
  - rewrite Hnil in Hin. inversion Hin.
  - rewrite Hfetched in Hin.
    destruct Hf; simpl in Hin; now inversion Hin.
Qed.

Lemma comprehension_values (hcells : list Datum) (columns : list string) p :
  map VarCharValue hcells = map Some columns ->
  comprehension (fun col => getitem "VarCharValue" (VarCharValue col))
    hcells p = (inr columns, p).
Proof.
  revert columns. induction hcells as [|col hcells IH];
    intros [|name columns] Heq; try discriminate; simpl.
  - reflexivity.
  - injection Heq as Hcol Heq. unfold bind. unfold getitem at 1.
    rewrite Hcol. unfold ret at 1. now rewrite (IH _ Heq).
Qed.

Lemma comprehension_missing (hcells : list Datum) col p :
  col ∈ hcells -> VarCharValue col = None ->
  comprehension (fun col => getitem "VarCharValue" (VarCharValue col))
    hcells p = (inl (KeyError "VarCharValue"), p).
Proof.
  intros Hin Hnone. induction hcells as [|col' hcells IH]; simpl.
  - inversion Hin.
  - unfold bind. unfold getitem at 1.
    destruct (VarCharValue col') as [v|] eqn:Hv; [|reflexivity].
    unfold ret at 1. apply elem_of_cons in Hin as [-> | Hin];
      [congruence |].
    now rewrite (IH Hin).
Qed.

Lemma for_each_render_row (shown : list (list Datum)) text p :
  for_each (rows_of shown) render_row text p
  = (inr (text +:+ row_lines shown), p).
Proof.
  revert text. induction shown as [|cells shown IH]; intros text; simpl.
  - unfold ret. now rewrite append_nil_r.
  - unfold bind, render_row, getitem, ret. simpl.
    rewrite IH. unfold row_line. now rewrite !append_assoc.
Qed.

Lemma take_rows_of n (cellss : list (list Datum)) :
  take n (rows_of cellss) = rows_of (take n cellss).
Proof. unfold rows_of. apply firstn_map. Qed.

Lemma row_lines_app (l1 l2 : list (list Datum)) :
  row_lines (l1 ++ l2) = row_lines l1 +:+ row_lines l2.
Proof.
  induction l1 as [|cells l1 IH]; simpl; [reflexivity |].
  now rewrite IH, append_assoc.
Qed.

(** The code's rendering of a well-formed result set is the report. *)
Lemma format_rows_report hcells columns cellss p :
  map VarCharValue hcells = map Some columns ->
  format_rows (rows_of (hcells :: cellss)) p
  = (inr (report_head columns (length cellss)
          +:+ row_lines (take 10 cellss)
          +:+ (if bool_decide (10 < length cellss)%nat
               then more_rows (length cellss - 10)
               else "")), p).
Proof.
  intros Hcols. unfold format_rows.
  change (rows_of (hcells :: cellss))
    with ({| Data := Some hcells |} :: rows_of cellss).
  cbv iota beta.
  rewrite (bind_returns _ _ p hcells p) by reflexivity.
  rewrite (bind_returns _ _ _ _ _ (comprehension_values _ _ _ Hcols)).
  change (drop 1 ({| Data := Some hcells |} :: rows_of cellss))
    with (rows_of cellss).
  rewrite take_rows_of.
  rewrite (bind_returns _ _ _ _ _ (for_each_render_row _ _ _)). unfold ret.
  rewrite length_cons. unfold rows_of. rewrite length_map.
  replace (Z.of_nat (S (length cellss)) - 1) with (Z.of_nat (length cellss))
    by lia.
  f_equal. f_equal.
  destruct (bool_decide (10 < length cellss)%nat) eqn:Hmore.
  - apply bool_decide_eq_true in Hmore.
    rewrite bool_decide_eq_true_2 by lia.
    replace (Z.of_nat (S (length cellss)) - 11)
      with (Z.of_nat (length cellss - 10)) by lia.
    unfold report_head, more_rows. now rewrite !append_assoc.
  - apply bool_decide_eq_false in Hmore.
    rewrite bool_decide_eq_false_2 by lia.
    unfold report_head. now rewrite append_nil_r, !append_assoc.
Qed.

Lemma format_results_rows res rows p :
  ResultSet res = Some {| Rows := Some rows |} ->
  format_results res p = format_rows rows p.
Proof. intros Hres. unfold format_results. now rewrite Hres. Qed.

(** A run that fetched a well-formed result set returns its report. *)
Lemma fetched_report q loc p out p' res hcells columns cellss :
  _execute_query_internal q loc p = (out, p') ->
  res ∈ fetched (new_calls p p') ->
  ResultSet res = Some {| Rows := Some (rows_of (hcells :: cellss)) |} ->
  map VarCharValue hcells = map Some columns ->
  out = inr (report_head columns (length cellss)
             +:+ row_lines (take 10 cellss)
             +:+ (if bool_decide (10 < length cellss)%nat
                  then more_rows (length cellss - 10)
                  else "")).
Proof.
  intros Hrun Hin Hres Hcols.
  apply internal_run in Hrun as (r & -> & Hran).
  pose proof (ran_fetched_result _ _ _ _ _ _ _ Hran Hin p) as Hfmt.
  rewrite (format_results_rows _ _ _ Hres) in Hfmt.
  rewrite (format_rows_report _ _ _ _ Hcols) in Hfmt.
  now injection Hfmt as <-.
Qed.

(** C1, as the code has it: when the result set fetched has no row at all
    the orchestrator returns
    ["Query executed successfully but returned no results."]; when it has a
    header row only, whose cells all carry a value, the orchestrator returns
    the success line, the column list and ["Results (0 rows):"] with no data
    line, which is a different string. *)
Theorem header_only_reports_zero_rows q loc p out p' res :
  _execute_query_internal q loc p = (out, p') ->
  res ∈ fetched (new_calls p p') ->
  (ResultSet res = Some {| Rows := Some [] |} ->
   out = inr "Query executed successfully but returned no results."%string) /\
  (forall hcells columns,
      ResultSet res = Some {| Rows := Some (rows_of [hcells]) |} ->
      map VarCharValue hcells = map Some columns ->
      out = inr ("Query executed successfully!" +:+ nl +:+ nl +:+
                 "Columns: " +:+ String.concat ", " columns +:+ nl +:+ nl +:+
                 "Results (0 rows):" +:+ nl) /\
      out <> inr "Query executed successfully but returned no results."%string).
Proof.
  intros Hrun Hin. split.
  - intros Hres. apply internal_run in Hrun as (r & -> & Hran).
    pose proof (ran_fetched_result _ _ _ _ _ _ _ Hran Hin p) as Hfmt.
    rewrite (format_results_rows _ _ _ Hres) in Hfmt.
    now injection Hfmt as <-.
  - intros hcells columns Hres Hcols.
    rewrite (fetched_report _ _ _ _ _ _ _ _ _ Hrun Hin Hres Hcols).
    simpl. rewrite append_nil_r. split; [reflexivity |].
    unfold report_head. simpl. discriminate.
Qed.

(** C2: when the result set fetched has a header row whose cells all carry a
    value and [n] data rows, the orchestrator returns the head of the report
    followed, if [n <= 10], by the lines of all [n] data rows and nothing
    else, and if [n > 10], by the lines of the first ten data rows and then
    a blank line and ["... and "], [n - 10], [" more rows"]. *)
Theorem preview_of_ten_rows q loc p out p' res hcells columns cellss :
  _execute_query_internal q loc p = (out, p') ->
  res ∈ fetched (new_calls p p') ->
  ResultSet res = Some {| Rows := Some (rows_of (hcells :: cellss)) |} ->
  map VarCharValue hcells = map Some columns ->
  ((length cellss <= 10)%nat ->
   out = inr (report_head columns (length cellss) +:+ row_lines cellss)) /\
  ((10 < length cellss)%nat ->
   out = inr (report_head columns (length cellss)
              +:+ row_lines (take 10 cellss)
              +:+ nl +:+ "... and "
              +:+ pretty (Z.of_nat (length cellss) - 10)
              +:+ " more rows")).
Proof.
  intros Hrun Hin Hres Hcols.
  rewrite (fetched_report _ _ _ _ _ _ _ _ _ Hrun Hin Hres Hcols).
  split; intros Hn.
  - rewrite bool_decide_eq_false_2 by lia.
    rewrite firstn_all2 by lia. now rewrite append_nil_r.
  - rewrite bool_decide_eq_true_2 by lia. unfold more_rows.
    now replace (Z.of_nat (length cellss - 10))
      with (Z.of_nat (length cellss) - 10) by lia.
Qed.

(** C4: when the result set fetched has a header row whose cells all carry a
    value, every data row among the first ten appears in the returned
    string as one line: its cells' texts joined by [" | "], one text per
    cell, where a cell without a value has the text ["NULL"] and a cell with
    a value has that value. *)
Theorem null_cells_render_as_NULL
    q loc p out p' res hcells columns cellss i cells :
  _execute_query_internal q loc p = (out, p') ->
  res ∈ fetched (new_calls p p') ->
  ResultSet res = Some {| Rows := Some (rows_of (hcells :: cellss)) |} ->
  map VarCharValue hcells = map Some columns ->
  (i < 10)%nat -> cellss !! i = Some cells ->
  exists before texts after,
    out = inr (before +:+ String.concat " | " texts +:+ nl +:+ after) /\
    Forall2 (fun col text =>
               match VarCharValue col with
               | None => text = "NULL"%string
               | Some v => text = v
               end) cells texts.
Proof.
  intros Hrun Hin Hres Hcols Hi Hcells.
  rewrite (fetched_report _ _ _ _ _ _ _ _ _ Hrun Hin Hres Hcols).
  assert (Hshown : take 10 cellss !! i = Some cells)
    by (rewrite lookup_take_lt by lia; exact Hcells).
  rewrite <- (take_drop_middle _ _ _ Hshown), row_lines_app.
  simpl row_lines. unfold row_line at 1.
  exists (report_head columns (length cellss)
          +:+ row_lines (take i (take 10 cellss))),
    (map cell_text cells).
  eexists. split.
  - rewrite !append_assoc. reflexivity.
  - clear. induction cells as [|col cells IH]; constructor; [|exact IH].
    unfold cell_text. now destruct (VarCharValue col).
Qed.

(** C9: when the result set fetched is not empty and some cell of its first
    row has no value, the orchestrator returns the error string of
    [KeyError('VarCharValue')], that is ["Error: 'VarCharValue'"], a line
    feed and the traceback; no ["NULL"] stands in for the header cell. *)
Theorem header_without_value_is_an_error
    q loc p out p' res hcells rest col :
  _execute_query_internal q loc p = (out, p') ->
  res ∈ fetched (new_calls p p') ->
  ResultSet res
  = Some {| Rows := Some ({| Data := Some hcells |} :: rest) |} ->
  col ∈ hcells -> VarCharValue col = None ->
  out = inr ("Error: 'VarCharValue'" +:+ nl
             +:+ format_exc (KeyError "VarCharValue")).
Proof.
  intros Hrun Hin Hres Hcol Hnone.
  apply internal_run in Hrun as (r & -> & Hran).
  pose proof (ran_fetched_result _ _ _ _ _ _ _ Hran Hin p) as Hfmt.
  rewrite (format_results_rows _ _ _ Hres) in Hfmt.
  unfold format_rows in Hfmt.
  rewrite (bind_returns (getitem "Data" (Some hcells)) _ p hcells p eq_refl)
    in Hfmt.
  rewrite (bind_raises _ _ _ _ _ (comprehension_missing _ _ _ Hcol Hnone))
    in Hfmt.
  now injection Hfmt as <-.
Qed.

End Formatting.

(** With a header row only the report does not say "returned no results". *)
Lemma header_only_counterexample :
  fetched (new_calls (fresh 0%nat) (snd (succeeds_with header_only)))
  = [header_only] /\
  exists text,
    fst (succeeds_with header_only) = inr text /\
    ~ contains text "returned no results".
Proof.
  split; [reflexivity |].
  eexists. split; [vm_compute; reflexivity |].
  apply not_contains. vm_compute. reflexivity.
Qed.

Lemma header_only_reports_zero_rows_witness :
  fst (succeeds_with header_only)
  = inr ("Query executed successfully!" +:+ nl +:+ nl +:+
         "Columns: id, name" +:+ nl +:+ nl +:+ "Results (0 rows):" +:+ nl).
Proof.
  destruct (@header_only_reports_zero_rows nat nat (succeeding header_only)
              "SELECT id, name FROM t" OUTPUT_LOCATION (fresh 0%nat) _ _
              header_only (surjective_pairing _)) as [_ Hheader].
  - vm_compute. repeat constructor.
  - destruct (Hheader (map Build_Datum [Some "id"; Some "name"])
                ["id"; "name"]%string eq_refl eq_refl) as [Hout _].
    exact Hout.
Defined.

Lemma preview_of_ten_rows_witness :
  fst (succeeds_with two_rows)
  = inr (report_head ["id"; "name"] 2 +:+ "1 | NULL" +:+ nl
         +:+ "NULL | x" +:+ nl) /\
  fst (succeeds_with twelve_rows)
  = inr (report_head ["n"] 12
         +:+ row_lines (repeat [{| VarCharValue := Some "7" |}] 10)
         +:+ nl +:+ "... and 2 more rows").
Proof.
  split.
  - destruct (@preview_of_ten_rows nat nat (succeeding two_rows)
                "SELECT id, name FROM t" OUTPUT_LOCATION (fresh 0%nat) _ _
                two_rows (map Build_Datum [Some "id"; Some "name"])
                ["id"; "name"]%string
                (map (map Build_Datum) [[Some "1"; None]; [None; Some "x"]])
                (surjective_pairing _)) as [Hfew _];
      [vm_compute; repeat constructor | reflexivity | reflexivity |].
    apply Hfew. simpl. lia.
  - destruct (@preview_of_ten_rows nat nat (succeeding twelve_rows)
                "SELECT id, name FROM t" OUTPUT_LOCATION (fresh 0%nat) _ _
                twelve_rows (map Build_Datum [Some "n"]) ["n"]%string
                (map (map Build_Datum) (repeat [Some "7"] 12))
                (surjective_pairing _)) as [_ Hmany];
      [vm_compute; repeat constructor | reflexivity | reflexivity |].
    apply Hmany. simpl. lia.
Defined.

Lemma null_cells_render_as_NULL_witness :
  exists before texts after,
    fst (succeeds_with two_rows)
    = inr (before +:+ String.concat " | " texts +:+ nl +:+ after) /\
    Forall2 (fun col text =>
               match VarCharValue col with
               | None => text = "NULL"%string
               | Some v => text = v
               end)
      [{| VarCharValue := Some "1" |}; {| VarCharValue := None |}] texts.
Proof.
  apply (@null_cells_render_as_NULL nat nat (succeeding two_rows)
           "SELECT id, name FROM t" OUTPUT_LOCATION (fresh 0%nat) _ _
           two_rows (map Build_Datum [Some "id"; Some "name"])
           ["id"; "name"]%string
           (map (map Build_Datum) [[Some "1"; None]; [None; Some "x"]])
           0%nat _ (surjective_pairing _));
    [vm_compute; repeat constructor | reflexivity | reflexivity
    | lia | reflexivity].
Defined.

Lemma header_without_value_is_an_error_witness :
  fst (succeeds_with nameless_column)
  = inr ("Error: 'VarCharValue'" +:+ nl
         +:+ "Traceback (most recent call last):" +:+ nl).
Proof.
  apply (@header_without_value_is_an_error nat nat (succeeding nameless_column)
           "SELECT id, name FROM t" OUTPUT_LOCATION (fresh 0%nat) _ _
           nameless_column
           (map Build_Datum [Some "id"; None])
           (rows_of [map Build_Datum [Some "1"; Some "x"]])
           {| VarCharValue := None |} (surjective_pairing _));
    [vm_compute; repeat constructor | reflexivity
    | repeat constructor | reflexivity].
Defined.

(** ** Failure, cancellation, timeout and faults *)

Section Outcomes.

Context {world client : Type} `{!Host world client}.

Implicit Types (p : @process world client).

(** C3: every tool returns a string, whatever its arguments and whatever the
    host does, so no exception leaves a tool.  When a call to the host
    raised during the invocation (on creating the client, submitting,
    polling or fetching), the string is ["Error: "], the text of that
    exception, a line feed and the traceback, so it contains the original
    error text and the diagnostic trace; and the same holds of any exception
    with which the body of the [try] ends. *)
Theorem tools_return_error_text (t : tool) p :
  exists text,
    fst (invoke t p) = inr text /\
    (forall e,
        e ∈ faults (new_calls p (snd (invoke t p))) ->
        text = "Error: " +:+ str_exc e +:+ nl +:+ format_exc e /\
        contains text (str_exc e) /\ contains text (format_exc e)) /\
    (forall e,
        fst (execute_body (statement t) (destination t) p) = inl e ->
        text = "Error: " +:+ str_exc e +:+ nl +:+ format_exc e).
Proof.
  destruct (invoke t p) as [out p'] eqn:Hrun.
  pose proof Hrun as Hbody. rewrite invoke_delegates in Hbody.
  apply invoke_run in Hrun as (r & -> & Hran). simpl.
  eexists. split; [reflexivity |]. split.
  - intros e He.
    rewrite (ran_faults _ _ _ _ _ _ _ Hran He). simpl. unfold error_text.
    split; [reflexivity |]. split.
    + apply contains_intro.
    + rewrite <- !append_assoc. apply contains_suffix.
  - intros e He. unfold _execute_query_internal, try_except in Hbody.
    destruct (execute_body (statement t) (destination t) p) as [r' p1].
    simpl in He. subst r'. unfold ret in Hbody.
    injection Hbody as Hout _. exact (eq_sym Hout).
Qed.

(** C5: when a poll of the run observes the state FAILED, the orchestrator
    returns ["Query failed: "] followed by the reason the engine gave, or by
    ["Unknown error"] when the response carries no reason. *)
Theorem failed_reports_reason q loc p out p' qs :
  _execute_query_internal q loc p = (out, p') ->
  inr qs ∈ polls (new_calls p p') ->
  read_state qs = inr "FAILED" ->
  exists text,
    out = inr text /\
    text = "Query failed: " +:+ default "Unknown error" (reason_of qs) /\
    match reason_of qs with
    | Some reason => contains text reason
    | None => contains text "Unknown error"
    end.
Proof.
  intros Hrun Hin Hs. apply internal_run in Hrun as (r & -> & Hran).
  destruct (ran_observed_terminal _ _ _ _ _ _ _ _ Hran Hin Hs)
    as (id & fevs & Hfin & _).
  { is_terminal. }
  inversion Hfin as [| | | qs' | | qs' s' Hnt]; subst.
  - eexists. split; [reflexivity |]. split; [reflexivity |].
    destruct (reason_of qs); apply contains_suffix.
  - destruct Hnt. is_terminal.
Qed.

(** C7: when a poll of the run, the [k]-th for any [k], observes the state
    CANCELLED, the orchestrator returns ["Query was cancelled."]: the same
    string however many polls came before. *)
Theorem cancelled_fixed_message q loc p out p' (k : nat) qs :
  _execute_query_internal q loc p = (out, p') ->
  polls (new_calls p p') !! k = Some (inr qs) ->
  read_state qs = inr "CANCELLED" ->
  out = inr "Query was cancelled."%string.
Proof.
  intros Hrun Hk Hs. apply internal_run in Hrun as (r & -> & Hran).
  apply list_elem_of_lookup_2 in Hk.
  destruct (ran_observed_terminal _ _ _ _ _ _ _ _ Hran Hk Hs)
    as (id & fevs & Hfin & _).
  { is_terminal. }
  inversion Hfin as [| | | | qs' | qs' s' Hnt]; subst.
  - reflexivity.
  - destruct Hnt. is_terminal.
Qed.

(** C6: in a run that polls and in which every poll returns a state other
    than SUCCEEDED, FAILED and CANCELLED, the orchestrator polls exactly 30
    times, fetches no results, and returns
    ["Query timed out after 30 seconds. Status: "] followed by the state the
    last poll observed. *)
Theorem timeout_after_thirty_polls q loc p out p' :
  _execute_query_internal q loc p = (out, p') ->
  polls (new_calls p p') <> [] ->
  (forall o, o ∈ polls (new_calls p p') ->
             exists qs s, o = inr qs /\ read_state qs = inr s /\ ~ terminal s) ->
  length (polls (new_calls p p')) = 30%nat /\
  fetched (new_calls p p') = [] /\
  exists qs s text,
    last (polls (new_calls p p')) = Some (inr qs) /\
    read_state qs = inr s /\ ~ terminal s /\
    out = inr text /\
    text = "Query timed out after 30 seconds. Status: " +:+ s /\
    contains text "timed out" /\ contains text s.
Proof.
  intros Hrun Hsome Hwait. apply internal_run in Hrun as (r & -> & Hran).
  destruct (ran_polls _ _ _ _ _ _ Hran)
    as [[Hnil _] | (id & pevs & pr & fevs & Hp & Hfin & Hpolls & Hfetched)];
    [contradiction |].
  rewrite Hpolls in *. rewrite Hfetched.
  destruct (polled_all_waiting _ _ _ _ _ Hp Hwait) as (res & -> & Hlen).
  destruct (polled_seen _ _ _ _ _ Hp)
    as [(Hn & _) | (qs & s & -> & Hs & Hlast)]; [discriminate |].
  destruct (Hwait _ (last_Some_elem_of _ _ Hlast))
    as (qs' & s' & Heq & Hs' & Hnt).
  injection Heq as <-. assert (s' = s) as -> by congruence.
  assert (Hne : forall s0, terminal s0 -> s0 <> s) by (intros s0 H0 ->; auto).
  inversion Hfin as [| qs0 e | qs0 res r0 Hr | qs0 | qs0 | qs0 s0 _]; subst;
    try (exfalso; eapply Hne; [|reflexivity]; is_terminal).
  split; [exact Hlen |]. split; [reflexivity |].
  exists qs, s. eexists. repeat split; try eassumption; try reflexivity.
  - apply (contains_intro "Query " "timed out" (" after 30 seconds. Status: " +:+ s)).
  - apply contains_suffix.
Qed.

End Outcomes.

Lemma failed_reports_reason_witness :
  exists text,
    fst (@_execute_query_internal nat nat
           (scripted (ends_in "FAILED" (Some "SYNTAX_ERROR: line 1:1")
                              (inl (Raised "not fetched"))))
           "SELEC 1" OUTPUT_LOCATION (fresh 0%nat)) = inr text /\
    contains text "SYNTAX_ERROR: line 1:1".
Proof.
  destruct (@failed_reports_reason nat nat
              (scripted (ends_in "FAILED" (Some "SYNTAX_ERROR: line 1:1")
                                 (inl (Raised "not fetched"))))
              "SELEC 1" OUTPUT_LOCATION (fresh 0%nat) _ _
              (status_of "FAILED" (Some "SYNTAX_ERROR: line 1:1"))
              (surjective_pairing _))
    as (text & Hout & _ & Hc).
  - vm_compute. repeat constructor.
  - reflexivity.
  - exists text. split; [exact Hout | exact Hc].
Defined.

Lemma cancelled_fixed_message_witness :
  fst (@_execute_query_internal nat nat
         (scripted (ends_in "CANCELLED" None (inl (Raised "not fetched"))))
         "SELECT 1" OUTPUT_LOCATION (fresh 0%nat))
  = inr "Query was cancelled."%string.
Proof.
  apply (@cancelled_fixed_message nat nat
           (scripted (ends_in "CANCELLED" None (inl (Raised "not fetched"))))
           "SELECT 1" OUTPUT_LOCATION (fresh 0%nat) _ _ 2%nat
           (status_of "CANCELLED" None) (surjective_pairing _)).
  - reflexivity.
  - reflexivity.
Defined.

Lemma timeout_after_thirty_polls_witness :
  length (polls (new_calls (fresh 0%nat)
                   (snd (@_execute_query_internal nat nat (scripted never_ends)
                           "SELECT 1" OUTPUT_LOCATION (fresh 0%nat)))))
  = 30%nat.
Proof.
  apply (@timeout_after_thirty_polls nat nat (scripted never_ends)
           "SELECT 1" OUTPUT_LOCATION (fresh 0%nat) _ _
           (surjective_pairing _)).
  - vm_compute. discriminate.
  - assert (Hq : ~ terminal "QUEUED").
    { unfold terminal. rewrite !elem_of_cons, elem_of_nil.
      intros [H | [H | [H | []]]]; discriminate. }
    apply Forall_forall.
    match goal with
    | |- Forall ?P ?l =>
        let l' := eval vm_compute in l in change (Forall P l')
    end.
    repeat (constructor;
            [eexists _, _;
             (split; [reflexivity | split; [reflexivity | exact Hq]]) |]).
    constructor.
Defined.

(** ** The statements of the derived tools, and the client *)

Section Tools.

Context {world client : Type} `{!Host world client}.

Implicit Types (p : @process world client).
Implicit Types (evs : list (@event client)) (g : option client) (c : client).

Local Abbreviation ran := (@ran world client).

Lemma internal_calls q loc p out p' :
  _execute_query_internal q loc p = (out, p') ->
  calls p' = calls p ++ new_calls p p'.
Proof.
  unfold _execute_query_internal, try_except.
  destruct (execute_body q loc p) as [r p1] eqn:Hb.
  apply execute_body_ran in Hb as (evs & Hc & _).
  pose proof (new_calls_app _ _ _ Hc) as Hnew.
  destruct r; intros [= <- <-]; now rewrite Hnew.
Qed.

Lemma ran_submitted q loc g evs r g' :
  ran q loc g evs r g' ->
  submitted evs = [(q, DATABASE_NAME, loc)] \/
  (submitted evs = [] /\
   exists e, evs = [Boto3Client "athena" "eu-west-1" (inl e)]).
Proof.
  intros [e | g0 conn c e Hc | g0 conn c resp Hc Hid
         | g0 conn c resp id pevs pr fevs r0 Hc Hid Hp Hf].
  - right. split; [reflexivity | now exists e].
  - left. rewrite submitted_app.
    now destruct (connected_record _ _ _ Hc) as (_ & -> & _).
  - left. rewrite submitted_app.
    now destruct (connected_record _ _ _ Hc) as (_ & -> & _).
  - left. destruct (connected_record _ _ _ Hc) as (_ & H1 & _).
    destruct (polled_record _ _ _ _ _ Hp) as (H2 & _).
    destruct (finished_record _ _ _ _ Hf) as (_ & H3 & _).
    rewrite submitted_app, H1. simpl. now rewrite submitted_app, H2, H3.
Qed.

Lemma ran_created q loc g evs r g' :
  ran q loc g evs r g' ->
  match g with
  | Some c => g' = Some c /\ created evs = []
  | None => created evs = option_list g'
  end.
Proof.
  intros [e | g0 conn c e Hc | g0 conn c resp Hc Hid
         | g0 conn c resp id pevs pr fevs r0 Hc Hid Hp Hf].
  - reflexivity.
  - rewrite created_app. destruct Hc; simpl; auto.
  - rewrite created_app. destruct Hc; simpl; auto.
  - destruct (polled_record _ _ _ _ _ Hp) as (_ & H2 & _).
    destruct (finished_record _ _ _ _ Hf) as (_ & _ & H3).
    rewrite created_app. simpl. rewrite created_app, H2, H3.
    destruct Hc; simpl; auto.
Qed.

(** C8: the derived tools hand the orchestrator exactly their templated
    statement and the default output location: [list_tables] the statement
    ["SHOW TABLES IN drm_text2sql_db"], [describe_table t] the statement
    ["DESCRIBE drm_text2sql_db."] followed by [t], [get_table_sample t l]
    the statement ["SELECT * FROM drm_text2sql_db."], [t], [" LIMIT "] and
    [l] in decimal, with [l = 10] when the limit is left out; and the one
    statement an invocation submits to the service is that statement,
    against the database ["drm_text2sql_db"] (none is submitted only when
    the client could not be created). *)
Theorem tools_submit_templates :
  (forall p,
      list_tables p
      = _execute_query_internal "SHOW TABLES IN drm_text2sql_db"
          OUTPUT_LOCATION p) /\
  (forall table p,
      describe_table table p
      = _execute_query_internal ("DESCRIBE drm_text2sql_db." +:+ table)
          OUTPUT_LOCATION p) /\
  (forall table (limit : Z) p,
      get_table_sample table (Some limit) p
      = _execute_query_internal
          ("SELECT * FROM drm_text2sql_db." +:+ table +:+ " LIMIT "
           +:+ pretty limit)
          OUTPUT_LOCATION p) /\
  (forall table p,
      get_table_sample table None p = get_table_sample table (Some 10) p) /\
  (forall t p,
      submitted (new_calls p (snd (invoke t p)))
      = [(statement t, "drm_text2sql_db"%string, destination t)] \/
      (submitted (new_calls p (snd (invoke t p))) = [] /\
       exists e,
         new_calls p (snd (invoke t p))
         = [Boto3Client "athena" "eu-west-1" (inl e)])) /\
  statement (DescribeTable "orders") = "DESCRIBE drm_text2sql_db.orders"%string /\
  statement (GetTableSample "orders" (Some 5))
  = "SELECT * FROM drm_text2sql_db.orders LIMIT 5"%string /\
  statement (GetTableSample "orders" None)
  = "SELECT * FROM drm_text2sql_db.orders LIMIT 10"%string.
Proof.
  repeat split.
  - intros p. apply (invoke_delegates ListTables).
  - intros table p. apply (invoke_delegates (DescribeTable table)).
  - intros table limit p.
    apply (invoke_delegates (GetTableSample table (Some limit))).
  - intros t p. destruct (invoke t p) as [out p'] eqn:Hrun.
    apply invoke_run in Hrun as (r & _ & Hran).
    apply (ran_submitted _ _ _ _ _ _ Hran).
Qed.

(** One invocation submits at most one statement, polls at most thirty
    times and fetches at most one result set. *)
Lemma invocation_bounded t p :
  (length (submitted (new_calls p (snd (invoke t p)))) <= 1)%nat /\
  (length (polls (new_calls p (snd (invoke t p)))) <= 30)%nat /\
  (length (fetched (new_calls p (snd (invoke t p)))) <= 1)%nat.
Proof.
  destruct (invoke t p) as [out p'] eqn:Hrun.
  apply invoke_run in Hrun as (r & _ & Hran).
  apply (ran_bounded _ _ _ _ _ _ Hran).
Qed.

(** *** The client global *)

Lemma tool_keeps_record t p out p' :
  invoke t p = (out, p') ->
  calls p' = calls p ++ new_calls p p' /\
  match _athena_client p with
  | Some c => _athena_client p' = Some c /\ created (new_calls p p') = []
  | None => created (new_calls p p') = option_list (_athena_client p')
  end.
Proof.
  intros Hrun. split.
  - rewrite invoke_delegates in Hrun. apply (internal_calls _ _ _ _ _ Hrun).
  - apply invoke_run in Hrun as (r & _ & Hran).
    apply (ran_created _ _ _ _ _ _ Hran).
Qed.

Lemma step_created p p' :
  step p p' ->
  created (calls p) = option_list (_athena_client p) ->
  created (calls p') = option_list (_athena_client p').
Proof.
  intros [t p0 r p0' Hrun | p0 r p0' Hget | p0 w] Hinv; [| | exact Hinv].
  - destruct (tool_keeps_record _ _ _ _ Hrun) as [Hc Hg].
    rewrite Hc, created_app, Hinv.
    destruct (_athena_client p0) as [c|].
    + destruct Hg as [-> ->]. reflexivity.
    + now rewrite Hg.
  - apply get_athena_client_connected in Hget
      as [(c & conn & _ & Hconn & Hc & Hg) | (e & _ & Hg & Hg' & Hc)].
    + rewrite Hc, created_app, Hinv, Hg.
      destruct Hconn; reflexivity.
    + rewrite Hc, created_app, Hinv, Hg, Hg'. reflexivity.
Qed.

Lemma step_keeps_client p p' c :
  step p p' -> _athena_client p = Some c -> _athena_client p' = Some c.
Proof.
  intros [t p0 r p0' Hrun | p0 r p0' Hget | p0 w] Hg; [| | exact Hg].
  - destruct (tool_keeps_record _ _ _ _ Hrun) as [_ Hk].
    rewrite Hg in Hk. apply Hk.
  - unfold get_athena_client in Hget. rewrite Hg in Hget.
    now injection Hget as _ <-.
Qed.

(** C10: in a process that started with no client, once a call of
    [get_athena_client] has returned the client [c], then after any further
    tool invocations and calls of [get_athena_client] the global still holds
    [c], a call of [get_athena_client] returns [c] and changes nothing, and
    [c] is the only client boto3 was ever asked to create successfully. *)
Theorem client_initialised_once (w : world) p0 c p1 p2 :
  rtc step (fresh w) p0 ->
  get_athena_client p0 = (inr c, p1) ->
  rtc step p1 p2 ->
  _athena_client p2 = Some c /\
  get_athena_client p2 = (inr c, p2) /\
  created (calls p2) = [c].
Proof.
  intros Hstart Hget Hlater.
  assert (Hinv0 : created (calls p0) = option_list (_athena_client p0)).
  { apply (rtc_ind_r (R := step)
             (fun p => created (calls p) = option_list (_athena_client p))
             (fresh w)); [reflexivity | | exact Hstart].
    intros p p' _ Hstep IH. now apply (step_created _ _ Hstep). }
  pose proof (step_created _ _ (step_client _ _ _ Hget) Hinv0) as Hinv1.
  assert (Hg1 : _athena_client p1 = Some c).
  { apply get_athena_client_connected in Hget
      as [(c' & conn & Hr & _ & _ & Hg) | (e & Hr & _)];
      [now injection Hr as -> | discriminate]. }
  clear Hget Hinv0 Hstart.
  induction Hlater as [p | p p' p'' Hstep _ IH]; [| apply IH].
  - repeat split; [assumption | | now rewrite Hinv1, Hg1].
    unfold get_athena_client. now rewrite Hg1.
  - now apply (step_created _ _ Hstep).
  - now apply (step_keeps_client _ _ _ Hstep).
Qed.

End Tools.

Lemma tools_return_error_text_witness :
  exists text,
    fst (@invoke nat nat (scripted throttled) ListTables (fresh 0%nat))
    = inr text /\
    contains text "ThrottlingException: Rate exceeded".
Proof.
  destruct (@tools_return_error_text nat nat (scripted throttled) ListTables
              (fresh 0%nat)) as (text & Hout & Hfault & _).
  exists text. split; [exact Hout |].
  destruct (Hfault (Raised "ThrottlingException: Rate exceeded"))
    as (_ & Hc & _); [vm_compute; repeat constructor | exact Hc].
Defined.

Lemma client_initialised_once_witness :
  _athena_client after_list_tables = Some 1%nat /\
  @get_athena_client nat nat (succeeding two_rows) after_list_tables
  = (inr 1%nat, after_list_tables) /\
  created (calls after_list_tables) = [1%nat].
Proof.
  apply (@client_initialised_once nat nat (succeeding two_rows) 0%nat
           (fresh 0%nat) 1%nat first_client after_list_tables).
  - apply rtc_refl.
  - reflexivity.
  - apply rtc_once.
    apply (@step_tool nat nat (succeeding two_rows) ListTables first_client
             _ _ (surjective_pairing _)).
Defined.

(** ** The conduct of an invocation *)

Section Conduct.

Context {world client : Type} `{!Host world client}.

Implicit Types (p : @process world client).
Implicit Types (evs pevs fevs conn : list (@event client)).
Implicit Types (g : option client) (c : client).

Local Abbreviation finished := (@finished world client).
Local Abbreviation ran := (@ran world client).

Lemma sleeps_app evs1 evs2 : sleeps (evs1 ++ evs2) = sleeps evs1 ++ sleeps evs2.
Proof. apply omap_app. Qed.

Lemma client_requests_app evs1 evs2 :
  client_requests (evs1 ++ evs2) = client_requests evs1 ++ client_requests evs2.
Proof. apply omap_app. Qed.

Lemma fetch_attempts_app evs1 evs2 :
  fetch_attempts (evs1 ++ evs2) = fetch_attempts evs1 ++ fetch_attempts evs2.
Proof. apply omap_app. Qed.

Lemma handles_app evs1 evs2 :
  handles (evs1 ++ evs2) = handles evs1 ++ handles evs2.
Proof. apply omap_app. Qed.

Lemma issued_app evs1 evs2 : issued (evs1 ++ evs2) = issued evs1 ++ issued evs2.
Proof. apply omap_app. Qed.

Lemma waitingb_spec o :
  waitingb o = true <->
  exists qs s, o = inr qs /\ read_state qs = inr s /\ ~ terminal s.
Proof.
  unfold waitingb, terminal. split.
  - destruct o as [e|qs]; [discriminate |].
    destruct (read_state qs) as [e|s] eqn:Hs; [discriminate |].
    intros Hb. exists qs, s. repeat split; [exact Hs |].
    apply negb_true_iff, bool_decide_eq_false in Hb. exact Hb.
  - intros (qs & s & -> & -> & Hnt).
    apply negb_true_iff, bool_decide_eq_false. exact Hnt.
Qed.

Lemma connected_conduct g conn c :
  connected g conn c ->
  sleeps conn = [] /\ fetch_attempts conn = [] /\ handles conn = [] /\
  issued conn = [] /\
  client_requests conn = match g with Some _ => [] | None => [inr c] end.
Proof. intros []; repeat split. Qed.

Lemma polled_conduct id n seen evs r :
  polled id n seen evs r ->
  client_requests evs = [] /\ fetch_attempts evs = [] /\ issued evs = [] /\
  Forall (eq id) (handles evs) /\
  sleeps evs = repeat 1 (length (List.filter waitingb (polls evs))).
Proof.
  induction 1 as [seen | n seen e | n seen qs e He | n seen qs s Hs Ht
                 | n seen qs s evs r Hs Ht Hp IH]; simpl.
  - repeat split. constructor.
  - repeat split. repeat constructor.
  - repeat split; [repeat constructor |]. now rewrite He.
  - repeat split; [repeat constructor |]. rewrite Hs.
    unfold terminal in Ht. now rewrite bool_decide_eq_true_2.
  - destruct IH as (H1 & H2 & H3 & H4 & H5). repeat split; try assumption.
    + now constructor.
    + rewrite Hs. unfold terminal in Ht.
      rewrite bool_decide_eq_false_2 by assumption. simpl. now rewrite H5.
Qed.

Lemma finished_conduct id pr fevs r :
  finished id pr fevs r ->
  sleeps fevs = [] /\ client_requests fevs = [] /\ issued fevs = [] /\
  Forall (eq id) (handles fevs) /\ (length (fetch_attempts fevs) <= 1)%nat.
Proof. intros []; simpl; repeat split; repeat constructor. Qed.

(** Every poll of the loop but the last came back waiting. *)
Lemma polled_earlier_waiting id n seen evs r (k : nat) o :
  polled id n seen evs r ->
  polls evs !! k = Some o -> (S k < length (polls evs))%nat ->
  waitingb o = true.
Proof.
  intros Hp. revert k.
  induction Hp as [seen | n seen e | n seen qs e He | n seen qs s Hs Ht
                  | n seen qs s evs r Hs Ht Hp IH]; simpl; intros k Hk Hlt;
    try (destruct k; simpl in *; (discriminate || lia)).
  destruct k as [|k]; simpl in Hk.
  - injection Hk as <-. apply waitingb_spec. now exists qs, s.
  - apply (IH k Hk). lia.
Qed.

(** What the loop leaves behind, read off its last poll. *)
Lemma polled_last id n evs r :
  polled id n None evs r ->
  match r with
  | inl e =>
      last (polls evs) = Some (inl e) \/
      exists qs, last (polls evs) = Some (inr qs) /\ read_state qs = inl e
  | inr res =>
      (n = O /\ res = None /\ evs = []) \/
      exists qs s,
        res = Some (qs, s) /\ read_state qs = inr s /\
        last (polls evs) = Some (inr qs)
  end.
Proof.
  destruct r as [e|res]; [| apply polled_seen].
  generalize (@None (GetQueryExecutionOutput * string)).
  intros seen Hp. remember (inl e) as r eqn:Hr. revert Hr.
  induction Hp as [seen | n seen e' | n seen qs e' He | n seen qs s Hs Ht
                  | n seen qs s evs r Hs Ht Hp IH]; intros Hr;
    try discriminate.
  - injection Hr as ->. now left.
  - injection Hr as ->. right. now exists qs.
  - simpl. destruct (IH Hr) as [Hl | (qs' & Hl & Hq)].
    + left. destruct (polls evs); [discriminate | exact Hl].
    + right. exists qs'. split; [| exact Hq].
      destruct (polls evs); [discriminate | exact Hl].
Qed.

(** The parts of a run that got as far as submitting. *)
Lemma ran_conduct q loc g evs r g' :
  ran q loc g evs r g' ->
  (g = None /\ g' = None /\
   exists e, r = inl e /\ evs = [Boto3Client "athena" "eu-west-1" (inl e)]) \/
  exists conn c sub rest,
    connected g conn c /\ g' = Some c /\
    evs = conn ++ StartQueryExecution q DATABASE_NAME loc sub :: rest /\
    ((exists e, sub = inl e /\ r = inl e /\ rest = []) \/
     (exists resp,
         sub = inr resp /\ QueryExecutionId resp = None /\
         r = inl (KeyError "QueryExecutionId") /\ rest = []) \/
     (exists resp id pevs pr fevs,
         sub = inr resp /\ QueryExecutionId resp = Some id /\
         polled id max_attempts None pevs pr /\ finished id pr fevs r /\
         rest = pevs ++ fevs)).
Proof.
  intros [e | g0 conn c e Hc | g0 conn c resp Hc Hid
         | g0 conn c resp id pevs pr fevs r0 Hc Hid Hp Hf].
  - left. repeat split. now exists e.
  - right. exists conn, c, (inl e), []. repeat split; [assumption |].
    left. now exists e.
  - right. exists conn, c, (inr resp), []. repeat split; [assumption |].
    right. left. now exists resp.
  - right. exists conn, c, (inr resp), (pevs ++ fevs).
    repeat split; [assumption |].
    right. right. now exists resp, id, pevs, pr, fevs.
Qed.

(** The readings of a run that got as far as polling. *)
Lemma polling_run_readings q loc g conn c resp id pevs pr fevs r :
  connected g conn c -> QueryExecutionId resp = Some id ->
  polled id max_attempts None pevs pr -> finished id pr fevs r ->
  polls (conn ++ StartQueryExecution q DATABASE_NAME loc (inr resp)
              :: pevs ++ fevs) = polls pevs /\
  sleeps (conn ++ StartQueryExecution q DATABASE_NAME loc (inr resp)
               :: pevs ++ fevs) = sleeps pevs /\
  fetch_attempts (conn ++ StartQueryExecution q DATABASE_NAME loc (inr resp)
                       :: pevs ++ fevs) = fetch_attempts fevs /\
  handles (conn ++ StartQueryExecution q DATABASE_NAME loc (inr resp)
                :: pevs ++ fevs) = handles pevs ++ handles fevs /\
  issued (conn ++ StartQueryExecution q DATABASE_NAME loc (inr resp)
               :: pevs ++ fevs) = [id] /\
  client_requests (conn ++ StartQueryExecution q DATABASE_NAME loc (inr resp)
                        :: pevs ++ fevs) = client_requests conn.
Proof.
  intros Hc Hid Hp Hf.
  destruct (connected_record _ _ _ Hc) as (_ & _ & C1 & _).
  destruct (connected_conduct _ _ _ Hc) as (C2 & C3 & C4 & C5 & _).
  destruct (polled_conduct _ _ _ _ _ Hp) as (P1 & P2 & P3 & _).
  destruct (finished_record _ _ _ _ Hf) as (F1 & _).
  destruct (finished_conduct _ _ _ _ Hf) as (F2 & F3 & F4 & _).
  rewrite polls_app, sleeps_app, fetch_attempts_app, handles_app, issued_app,
    client_requests_app, C1, C2, C3, C4, C5.
  simpl. rewrite Hid.
  rewrite polls_app, sleeps_app, fetch_attempts_app, handles_app, issued_app,
    client_requests_app, P1, P2, P3, F1, F2, F3, F4, !app_nil_r.
  repeat split.
Qed.

(** The readings of a run that ended at the submission. *)
Lemma submitted_only_readings g conn c q db loc sub :
  connected g conn c ->
  polls (conn ++ [StartQueryExecution q db loc sub]) = [] /\
  sleeps (conn ++ [StartQueryExecution q db loc sub]) = [] /\
  fetch_attempts (conn ++ [StartQueryExecution q db loc sub]) = [] /\
  handles (conn ++ [StartQueryExecution q db loc sub]) = [] /\
  client_requests (conn ++ [StartQueryExecution q db loc sub])
  = client_requests conn.
Proof.
  intros Hc.
  destruct (connected_record _ _ _ Hc) as (_ & _ & C1 & _).
  destruct (connected_conduct _ _ _ Hc) as (C2 & C3 & C4 & _).
  rewrite polls_app, sleeps_app, fetch_attempts_app, handles_app,
    client_requests_app, C1, C2, C3, C4.
  simpl. now rewrite app_nil_r.
Qed.

(** Splits a run into its four ways of ending: no client, a submission that
    raised, a submission without an id, and a run that polled; and brings
    in the readings of each. *)
Ltac by_conduct Hran q loc :=
  destruct (ran_conduct _ _ _ _ _ _ Hran)
    as [(Hg & Hg' & fault & Hr & Hevs)
       | (conn & c & sub0 & rest0 & Hc & Hg' & Hevs &
          [(fault & Hsub & Hr & Hrest) | [(resp & Hsub & Hid & Hr & Hrest)
          | (resp & id0 & pevs & pr & fevs & Hsub & Hid & Hp & Hf & Hrest)]])];
  rewrite Hevs in *;
  [ | subst sub0 rest0;
      pose proof (submitted_only_readings _ _ _ q DATABASE_NAME loc
                    (inl fault) Hc)
        as (Rpolls & Rsleeps & Rfetch & Rhandles & Rclients)
    | subst sub0 rest0;
      pose proof (submitted_only_readings _ _ _ q DATABASE_NAME loc
                    (inr resp) Hc)
        as (Rpolls & Rsleeps & Rfetch & Rhandles & Rclients)
    | subst sub0 rest0;
      pose proof (polling_run_readings q loc _ _ _ _ _ _ _ _ _ Hc Hid Hp Hf)
        as (Rpolls & Rsleeps & Rfetch & Rhandles & Rissued & Rclients) ].

(** Polling goes on only while the answer is a state other than SUCCEEDED,
    FAILED and CANCELLED: every poll of an invocation but the last came back
    with such a state, and a poll that observes one of the three is the last
    poll made. *)
Theorem polling_stops_at_first_answer t p out p' :
  invoke t p = (out, p') ->
  (forall (k : nat) o,
      polls (new_calls p p') !! k = Some o ->
      (S k < length (polls (new_calls p p')))%nat ->
      exists qs s, o = inr qs /\ read_state qs = inr s /\ ~ terminal s) /\
  (forall (k : nat) qs s,
      polls (new_calls p p') !! k = Some (inr qs) ->
      read_state qs = inr s -> terminal s ->
      length (polls (new_calls p p')) = S k).
Proof.
  intros Hrun. apply invoke_run in Hrun as (r & _ & Hran).
  assert (Hearly : forall (k : nat) o,
             polls (new_calls p p') !! k = Some o ->
             (S k < length (polls (new_calls p p')))%nat ->
             exists qs s, o = inr qs /\ read_state qs = inr s /\ ~ terminal s).
  { intros k o Hk Hlt. apply waitingb_spec.
    destruct (ran_polls _ _ _ _ _ _ Hran)
      as [[Hnil _] | (id & pevs & pr & fevs & Hp & _ & Hpolls & _)].
    - rewrite Hnil in Hk. discriminate.
    - rewrite Hpolls in Hk, Hlt.
      apply (polled_earlier_waiting _ _ _ _ _ _ _ Hp Hk Hlt). }
  split; [exact Hearly |].
  intros k qs s Hk Hs Ht. pose proof (lookup_lt_Some _ _ _ Hk) as Hlt.
  destruct (decide (S k < length (polls (new_calls p p')))%nat) as [Hmore|];
    [| lia].
  destruct (Hearly k _ Hk Hmore) as (qs' & s' & Heq & Hs' & Hnt).
  injection Heq as <-. congruence.
Qed.

(** The orchestrator sleeps one second after each poll that came back with
    a state other than SUCCEEDED, FAILED and CANCELLED, and at no other
    moment; so an invocation sleeps at most thirty times. *)
Theorem sleeps_one_second_per_waiting_poll t p out p' :
  invoke t p = (out, p') ->
  sleeps (new_calls p p')
  = repeat 1 (length (List.filter waitingb (polls (new_calls p p')))) /\
  (length (sleeps (new_calls p p')) <= 30)%nat.
Proof.
  intros Hrun. apply invoke_run in Hrun as (r & _ & Hran).
  assert (Heq : sleeps (new_calls p p')
                = repeat 1 (length (List.filter waitingb
                                      (polls (new_calls p p'))))).
  { by_conduct Hran (statement t) (destination t);
      rewrite ?Rpolls, ?Rsleeps; try reflexivity.
    now destruct (polled_conduct _ _ _ _ _ Hp) as (_ & _ & _ & _ & ->). }
  split; [exact Heq |].
  rewrite Heq, repeat_length.
  pose proof (filter_length_le waitingb (polls (new_calls p p'))) as Hle.
  destruct (ran_bounded _ _ _ _ _ _ Hran) as (_ & Hpolls & _).
  unfold max_attempts in Hpolls. lia.
Qed.

(** Every poll and every fetch of an invocation is made with the
    [QueryExecutionId] that its one submission returned. *)
Theorem polls_and_fetch_use_the_issued_id t p out p' id :
  invoke t p = (out, p') ->
  id ∈ handles (new_calls p p') ->
  issued (new_calls p p') = [id].
Proof.
  intros Hrun Hin. apply invoke_run in Hrun as (r & _ & Hran).
  by_conduct Hran (statement t) (destination t);
    rewrite ?Rhandles in Hin; try (now inversion Hin).
  rewrite Rissued.
  destruct (polled_conduct _ _ _ _ _ Hp) as (_ & _ & _ & Hall & _).
  destruct (finished_conduct _ _ _ _ Hf) as (_ & _ & _ & Hall' & _).
  rewrite Forall_forall in Hall, Hall'.
  apply elem_of_app in Hin as [Hin | Hin];
    [rewrite (Hall _ Hin) | rewrite (Hall' _ Hin)]; reflexivity.
Qed.

(** A [GetQueryResults] call in the record of a run is a fetch attempt. *)
Lemma fetch_event_attempt evs id (r : Exception + GetQueryResultsOutput) :
  GetQueryResults id r ∈ evs -> r ∈ fetch_attempts evs.
Proof.
  intros Hin. apply list_elem_of_omap. eexists. split; [exact Hin |].
  reflexivity.
Qed.

(** Results are fetched exactly when the last poll observed SUCCEEDED: then
    one [get_query_results] call is made and it is the last call of the
    invocation; in every other invocation none is made. *)
Theorem results_fetched_only_on_success t p out p' :
  invoke t p = (out, p') ->
  (fetch_attempts (new_calls p p') <> [] <->
   exists qs,
     last (polls (new_calls p p')) = Some (inr qs) /\
     read_state qs = inr "SUCCEEDED") /\
  (length (fetch_attempts (new_calls p p')) <= 1)%nat /\
  (forall id r,
      GetQueryResults id r ∈ new_calls p p' ->
      last (new_calls p p') = Some (GetQueryResults id r)).
Proof.
  intros Hrun. apply invoke_run in Hrun as (r & _ & Hran).
  assert (Hnone : forall evs,
             polls evs = [] -> fetch_attempts evs = [] ->
             (fetch_attempts evs <> [] <->
              exists qs, last (polls evs) = Some (inr qs) /\
                         read_state qs = inr "SUCCEEDED") /\
             (length (fetch_attempts evs) <= 1)%nat /\
             (forall id r0, GetQueryResults id r0 ∈ evs ->
                            last evs = Some (GetQueryResults id r0))).
  { intros evs E1 E2. rewrite E1. repeat split.
    - intros Hne. now rewrite E2 in Hne.
    - intros (qs & Hq & _). discriminate.
    - rewrite E2. simpl. lia.
    - intros id r0 Hin. apply fetch_event_attempt in Hin.
      rewrite E2 in Hin. inversion Hin. }
  by_conduct Hran (statement t) (destination t);
    try (apply Hnone; (reflexivity || assumption)).
  rewrite Rpolls, Rfetch.
  pose proof (polled_last _ _ _ _ Hp) as Hlast.
  destruct (polled_conduct _ _ _ _ _ Hp) as (_ & Hfa & _).
  assert (Hpart : forall id r0,
             GetQueryResults id r0 ∈ conn
               ++ StartQueryExecution (statement t) DATABASE_NAME
                    (destination t) (inr resp) :: pevs ++ fevs ->
             r0 ∈ fetch_attempts fevs).
  { intros id r0 Hin. apply fetch_event_attempt in Hin.
    now rewrite Rfetch in Hin. }
  destruct Hf as [e | qs e | qs res r0 Hr | qs | qs | qs s Hnt]; simpl in *;
    try (destruct Hlast as [(Hn & _) | (qs' & s' & Heq & Hs & Hl)];
         [discriminate | injection Heq as <- <-]).
  - repeat split; [intros []; reflexivity | | lia |].
    + intros (qs & Hq & Hs).
      destruct Hlast as [Hl | (qs' & Hl & Hs')]; congruence.
    + intros id r0 Hin. apply Hpart in Hin. inversion Hin.
  - repeat split; [intros _; now exists qs | discriminate | lia |].
    intros id r0 Hin. pose proof (Hpart _ _ Hin) as Hr0.
    apply list_elem_of_singleton in Hr0. subst r0.
    apply elem_of_app in Hin as [Hin | Hin].
    { destruct Hc; inversion Hin as [| ? ? ? Hin']; inversion Hin'. }
    apply elem_of_cons in Hin as [Heq | Hin]; [discriminate |].
    apply elem_of_app in Hin as [Hin | Hin].
    { apply fetch_event_attempt in Hin. rewrite Hfa in Hin. inversion Hin. }
    apply list_elem_of_singleton in Hin. injection Hin as ->.
    rewrite app_comm_cons, app_assoc. apply last_snoc.
  - repeat split; [intros _; now exists qs | discriminate | lia |].
    intros id r1 Hin. pose proof (Hpart _ _ Hin) as Hr1.
    apply list_elem_of_singleton in Hr1. subst r1.
    apply elem_of_app in Hin as [Hin | Hin].
    { destruct Hc; inversion Hin as [| ? ? ? Hin']; inversion Hin'. }
    apply elem_of_cons in Hin as [Heq | Hin]; [discriminate |].
    apply elem_of_app in Hin as [Hin | Hin].
    { apply fetch_event_attempt in Hin. rewrite Hfa in Hin. inversion Hin. }
    apply list_elem_of_singleton in Hin. injection Hin as ->.
    rewrite app_comm_cons, app_assoc. apply last_snoc.
  - repeat split; [intros []; reflexivity | | lia |].
    + intros (qs' & Hq & Hs'). congruence.
    + intros id r0 Hin. apply Hpart in Hin. inversion Hin.
  - repeat split; [intros []; reflexivity | | lia |].
    + intros (qs' & Hq & Hs'). congruence.
    + intros id r0 Hin. apply Hpart in Hin. inversion Hin.
  - repeat split; [intros []; reflexivity | | lia |].
    + intros (qs' & Hq & Hs').
      exfalso. apply Hnt. assert (s = "SUCCEEDED"%string) as -> by congruence.
      is_terminal.
    + intros id r0 Hin. apply Hpart in Hin. inversion Hin.
Qed.

(** When [boto3.client] raises, the invocation makes no other call, leaves
    the global empty and returns the error string of that exception. *)
Theorem no_client_no_submission t p out p' e :
  invoke t p = (out, p') ->
  inl e ∈ client_requests (new_calls p p') ->
  new_calls p p' = [Boto3Client "athena" "eu-west-1" (inl e)] /\
  _athena_client p' = None /\
  out = inr ("Error: " +:+ str_exc e +:+ nl +:+ format_exc e).
Proof.
  intros Hrun Hin. apply invoke_run in Hrun as (r & -> & Hran).
  by_conduct Hran (statement t) (destination t).
  - apply list_elem_of_singleton in Hin. injection Hin as ->.
    subst r. repeat split. assumption.
  - rewrite Rclients in Hin.
    destruct Hc; inversion Hin as [| ? ? ? Hin']; inversion Hin'.
  - rewrite Rclients in Hin.
    destruct Hc; inversion Hin as [| ? ? ? Hin']; inversion Hin'.
  - rewrite Rclients in Hin.
    destruct Hc; inversion Hin as [| ? ? ? Hin']; inversion Hin'.
Qed.

(** An invocation asks boto3 for a client exactly when the process holds
    none: then [boto3.client('athena', region_name='eu-west-1')] is its
    first call and its only such call, and the global afterwards holds the
    client returned, or stays empty if the call raised.  When the process
    holds a client, no such call is made, the global is kept, and the first
    call is the submission of the tool's statement. *)
Theorem client_requested_only_when_absent t p out p' :
  invoke t p = (out, p') ->
  (_athena_client p = None ->
   exists r,
     head (new_calls p p') = Some (Boto3Client "athena" "eu-west-1" r) /\
     client_requests (new_calls p p') = [r] /\
     _athena_client p' = match r with
                         | inr c => Some c
                         | inl _ => None
                         end) /\
  (forall c,
      _athena_client p = Some c ->
      client_requests (new_calls p p') = [] /\
      _athena_client p' = Some c /\
      exists sub,
        head (new_calls p p')
        = Some (StartQueryExecution (statement t) DATABASE_NAME
                  (destination t) sub)).
Proof.
  intros Hrun. apply invoke_run in Hrun as (r & _ & Hran).
  by_conduct Hran (statement t) (destination t).
  - split; [| intros c0 Hsome; congruence].
    intros _. exists (inl fault). repeat split. assumption.
  - rewrite Rclients, Hg'. split.
    + intros Hnone. exists (inr c). rewrite Hnone in Hc.
      inversion Hc; subst. repeat split.
    + intros c0 Hsome. rewrite Hsome in Hc. inversion Hc; subst.
      repeat split. now eexists.
  - rewrite Rclients, Hg'. split.
    + intros Hnone. exists (inr c). rewrite Hnone in Hc.
      inversion Hc; subst. repeat split.
    + intros c0 Hsome. rewrite Hsome in Hc. inversion Hc; subst.
      repeat split. now eexists.
  - rewrite Rclients, Hg'. split.
    + intros Hnone. exists (inr c). rewrite Hnone in Hc.
      inversion Hc; subst. repeat split.
    + intros c0 Hsome. rewrite Hsome in Hc. inversion Hc; subst.
      repeat split. now eexists.
Qed.

(** A submission found in a run's record is the run's own. *)
Lemma submission_in_run g conn c pevs fevs id pr r0 q db loc sub q0 db0 loc0 sub0 :
  connected g conn c ->
  (pevs = [] /\ fevs = [] \/
   polled id max_attempts None pevs pr /\ finished id pr fevs r0) ->
  StartQueryExecution q db loc sub
  ∈ conn ++ StartQueryExecution q0 db0 loc0 sub0 :: pevs ++ fevs ->
  sub = sub0.
Proof.
  intros Hc Hrest Hin. apply elem_of_app in Hin as [Hin | Hin].
  { destruct Hc; inversion Hin as [| ? ? ? Hin']; inversion Hin'. }
  apply elem_of_cons in Hin as [Heq | Hin]; [now injection Heq |].
  exfalso. assert (Hs : (q, db, loc) ∈ submitted (pevs ++ fevs)).
  { apply list_elem_of_omap. eexists. split; [exact Hin | reflexivity]. }
  destruct Hrest as [[-> ->] | [Hp Hf]]; [inversion Hs |].
  destruct (polled_record _ _ _ _ _ Hp) as (H1 & _).
  destruct (finished_record _ _ _ _ Hf) as (_ & H2 & _).
  rewrite submitted_app, H1, H2 in Hs. inversion Hs.
Qed.

(** A submission that raises, or that returns no [QueryExecutionId], is
    the last call of the invocation: nothing is polled, slept or fetched,
    the submission is not tried again, and the error string of the exception
    (for a missing id, of [KeyError('QueryExecutionId')]) is returned. *)
Theorem failed_submission_ends_the_run t p out p' q db loc sub :
  invoke t p = (out, p') ->
  StartQueryExecution q db loc sub ∈ new_calls p p' ->
  (forall resp, sub = inr resp -> QueryExecutionId resp = None) ->
  last (new_calls p p') = Some (StartQueryExecution q db loc sub) /\
  submitted (new_calls p p') = [(q, db, loc)] /\
  polls (new_calls p p') = [] /\ sleeps (new_calls p p') = [] /\
  fetch_attempts (new_calls p p') = [] /\
  out = inr ("Error: "
             +:+ str_exc match sub with
                         | inl e => e
                         | inr _ => KeyError "QueryExecutionId"
                         end
             +:+ nl
             +:+ format_exc match sub with
                            | inl e => e
                            | inr _ => KeyError "QueryExecutionId"
                            end).
Proof.
  intros Hrun Hin Hnoid. apply invoke_run in Hrun as (r & -> & Hran).
  by_conduct Hran (statement t) (destination t).
  - apply list_elem_of_singleton in Hin. discriminate.
  - apply elem_of_app in Hin as [Hin | Hin].
    { destruct Hc; inversion Hin as [| ? ? ? Hin']; inversion Hin'. }
    apply list_elem_of_singleton in Hin. injection Hin as -> -> -> ->.
    rewrite last_snoc, submitted_app.
    destruct (connected_record _ _ _ Hc) as (_ & -> & _).
    subst r. now repeat split.
  - apply elem_of_app in Hin as [Hin | Hin].
    { destruct Hc; inversion Hin as [| ? ? ? Hin']; inversion Hin'. }
    apply list_elem_of_singleton in Hin. injection Hin as -> -> -> ->.
    rewrite last_snoc, submitted_app.
    destruct (connected_record _ _ _ Hc) as (_ & -> & _).
    subst r. now repeat split.
  - exfalso.
    assert (sub = inr resp) as ->.
    { eapply submission_in_run;
        [exact Hc | right; split; eassumption | exact Hin]. }
    rewrite (Hnoid resp eq_refl) in Hid. discriminate.
Qed.

(** A poll answer as the loop could not read it. *)
Lemma polled_malformed_seen id n seen evs r qs e :
  polled id n seen evs r ->
  inr qs ∈ polls evs -> read_state qs = inl e ->
  r = inl e /\ last (polls evs) = Some (inr qs).
Proof.
  induction 1 as [| | n seen qs' e' He' | n seen qs' s' Hs' Ht'
                 | n seen qs' s' evs r Hs' Ht' Hp IH];
    simpl; intros Hin He.
  - inversion Hin.
  - apply list_elem_of_singleton in Hin. discriminate.
  - apply list_elem_of_singleton in Hin. injection Hin as ->.
    split; [congruence | reflexivity].
  - apply list_elem_of_singleton in Hin. injection Hin as ->. congruence.
  - apply elem_of_cons in Hin as [Heq | Hin].
    + injection Heq as ->. congruence.
    + destruct (IH Hin He) as [-> Hl]. split; [reflexivity |].
      destruct (polls evs); [discriminate | exact Hl].
Qed.

(** A status response without ['QueryExecution'], ['Status'] or ['State']
    ends the invocation: it is the last poll, nothing is fetched, and the
    error string of the [KeyError] for the first key missing is returned. *)
Theorem malformed_poll_is_an_error t p out p' qs e :
  invoke t p = (out, p') ->
  inr qs ∈ polls (new_calls p p') ->
  read_state qs = inl e ->
  out = inr ("Error: " +:+ str_exc e +:+ nl +:+ format_exc e) /\
  last (polls (new_calls p p')) = Some (inr qs) /\
  fetch_attempts (new_calls p p') = [].
Proof.
  intros Hrun Hin He. apply invoke_run in Hrun as (r & -> & Hran).
  by_conduct Hran (statement t) (destination t);
    rewrite ?Rpolls in Hin; try (now inversion Hin).
  rewrite Rpolls, Rfetch.
  destruct (polled_malformed_seen _ _ _ _ _ _ _ Hp Hin He) as [-> Hl].
  inversion Hf; subst. now repeat split.
Qed.

(** *** What is read of the result set *)

Lemma format_rows_preview hcells columns shown (rest : list Row) p :
  map VarCharValue hcells = map Some columns ->
  length shown = 10%nat ->
  format_rows (rows_of (hcells :: shown) ++ rest) p
  = (inr (report_head columns (10 + length rest)
          +:+ row_lines shown
          +:+ match rest with
              | [] => ""
              | _ :: _ => more_rows (length rest)
              end), p).
Proof.
  intros Hcols Hlen. unfold format_rows.
  change (rows_of (hcells :: shown) ++ rest)
    with ({| Data := Some hcells |} :: (rows_of shown ++ rest)).
  cbv iota beta.
  rewrite (bind_returns _ _ p hcells p) by reflexivity.
  rewrite (bind_returns _ _ _ _ _ (comprehension_values _ _ _ Hcols)).
  change (drop 1 ({| Data := Some hcells |} :: (rows_of shown ++ rest)))
    with (rows_of shown ++ rest).
  assert (Hl : length (rows_of shown) = 10%nat)
    by (unfold rows_of; now rewrite length_map).
  rewrite take_app_length' by now rewrite Hl.
  rewrite (bind_returns _ _ _ _ _ (for_each_render_row _ _ _)). unfold ret.
  rewrite length_cons, length_app, Hl.
  replace (Z.of_nat (S (10 + length rest)) - 1)
    with (Z.of_nat (10 + length rest)) by lia.
  f_equal. f_equal. destruct rest as [|row rest].
  - rewrite bool_decide_eq_false_2 by (simpl; lia).
    unfold report_head. now rewrite append_nil_r, !append_assoc.
  - rewrite bool_decide_eq_true_2 by (simpl; lia).
    replace (Z.of_nat (S (10 + length (row :: rest))) - 11)
      with (Z.of_nat (length (row :: rest))) by (simpl length; lia).
    unfold report_head, more_rows. now rewrite !append_assoc.
Qed.

Lemma for_each_render_row_torn (before : list (list Datum)) (rest : list Row)
    text p :
  for_each (rows_of before ++ {| Data := None |} :: rest) render_row text p
  = (inl (KeyError "Data"), p).
Proof.
  revert text. induction before as [|cells before IH]; intros text; simpl.
  - reflexivity.
  - unfold bind at 1. unfold render_row at 1, bind, getitem, ret. simpl.
    apply IH.
Qed.

(** Rows after the tenth data row are counted and never read: when the
    result set fetched has a header whose cells all carry a value, ten data
    rows that carry their cells, and any further rows whatever (with or
    without ['Data']), the orchestrator returns the head with the count of
    all data rows, the ten lines, and the note on the rows left out. *)
Theorem later_rows_are_only_counted
    t p out p' res hcells columns shown (rest : list Row) :
  invoke t p = (out, p') ->
  res ∈ fetched (new_calls p p') ->
  ResultSet res
  = Some {| Rows := Some (rows_of (hcells :: shown) ++ rest) |} ->
  map VarCharValue hcells = map Some columns ->
  length shown = 10%nat ->
  out = inr (report_head columns (10 + length rest)
             +:+ row_lines shown
             +:+ match rest with
                 | [] => ""
                 | _ :: _ => nl +:+ "... and "
                             +:+ pretty (Z.of_nat (length rest))
                             +:+ " more rows"
                 end).
Proof.
  intros Hrun Hin Hres Hcols Hlen.
  apply invoke_run in Hrun as (r & -> & Hran).
  pose proof (ran_fetched_result _ _ _ _ _ _ _ Hran Hin p) as Hfmt.
  rewrite (format_results_rows _ _ _ Hres) in Hfmt.
  rewrite (format_rows_preview _ _ _ _ _ Hcols Hlen) in Hfmt.
  now injection Hfmt as <-.
Qed.

(** A row among the first ten data rows that has no ['Data'] makes the whole
    invocation return the error string of [KeyError('Data')], whatever the
    rows before it rendered. *)
Theorem shown_row_without_data_is_an_error
    t p out p' res hcells columns before (rest : list Row) :
  invoke t p = (out, p') ->
  res ∈ fetched (new_calls p p') ->
  ResultSet res
  = Some {| Rows := Some (rows_of (hcells :: before)
                          ++ {| Data := None |} :: rest) |} ->
  map VarCharValue hcells = map Some columns ->
  (length before < 10)%nat ->
  out = inr ("Error: 'Data'" +:+ nl +:+ format_exc (KeyError "Data")).
Proof.
  intros Hrun Hin Hres Hcols Hlen.
  apply invoke_run in Hrun as (r & -> & Hran).
  pose proof (ran_fetched_result _ _ _ _ _ _ _ Hran Hin p) as Hfmt.
  rewrite (format_results_rows _ _ _ Hres) in Hfmt.
  unfold format_rows in Hfmt.
  change (rows_of (hcells :: before) ++ {| Data := None |} :: rest)
    with ({| Data := Some hcells |}
          :: (rows_of before ++ {| Data := None |} :: rest)) in Hfmt.
  cbv iota beta in Hfmt.
  rewrite (bind_returns _ _ p hcells p) in Hfmt by reflexivity.
  rewrite (bind_returns _ _ _ _ _ (comprehension_values _ _ _ Hcols)) in Hfmt.
  change (drop 1 ({| Data := Some hcells |}
                  :: (rows_of before ++ {| Data := None |} :: rest)))
    with (rows_of before ++ {| Data := None |} :: rest) in Hfmt.
  rewrite take_app_ge in Hfmt
    by (unfold rows_of; rewrite length_map; lia).
  assert (Hcut : exists m,
             (10 - length (rows_of before))%nat = S m).
  { unfold rows_of. rewrite length_map. exists (9 - length before)%nat. lia. }
  destruct Hcut as [m Hm]. rewrite Hm in Hfmt. simpl take in Hfmt.
  rewrite (bind_raises _ _ _ _ _ (for_each_render_row_torn _ _ _ _)) in Hfmt.
  now injection Hfmt as <-.
Qed.

(** Results that lack ['ResultSet'], or ['Rows'], or whose first row lacks
    ['Data'], make the invocation return the error string of the [KeyError]
    for that key. *)
Theorem results_missing_a_key_are_an_error t p out p' res :
  invoke t p = (out, p') ->
  res ∈ fetched (new_calls p p') ->
  (ResultSet res = None ->
   out = inr ("Error: 'ResultSet'" +:+ nl
              +:+ format_exc (KeyError "ResultSet"))) /\
  (ResultSet res = Some {| Rows := None |} ->
   out = inr ("Error: 'Rows'" +:+ nl +:+ format_exc (KeyError "Rows"))) /\
  (forall rest,
      ResultSet res = Some {| Rows := Some ({| Data := None |} :: rest) |} ->
      out = inr ("Error: 'Data'" +:+ nl +:+ format_exc (KeyError "Data"))).
Proof.
  intros Hrun Hin. apply invoke_run in Hrun as (r & -> & Hran).
  pose proof (ran_fetched_result _ _ _ _ _ _ _ Hran Hin p) as Hfmt.
  repeat split.
  - intros Hres. unfold format_results in Hfmt. rewrite Hres in Hfmt.
    now injection Hfmt as <-.
  - intros Hres. unfold format_results in Hfmt. rewrite Hres in Hfmt.
    now injection Hfmt as <-.
  - intros rest Hres. rewrite (format_results_rows _ _ _ Hres) in Hfmt.
    now injection Hfmt as <-.
Qed.

(** *** The five kinds of answer *)

Lemma for_each_render_row_extends (rows : list Row) text p r p1 :
  for_each rows render_row text p = (inr r, p1) ->
  exists more, r = text +:+ more.
Proof.
  revert text. induction rows as [|row rows IH]; intros text; simpl.
  - intros [= <- _]. exists ""%string. now rewrite append_nil_r.
  - unfold bind at 1. unfold render_row at 1, bind, getitem, ret, raise.
    destruct (Data row) as [data|]; [| discriminate].
    intros Hrest. apply IH in Hrest as [more ->].
    eexists. rewrite !append_assoc. reflexivity.
Qed.

Lemma format_rows_starts rows p text p1 :
  format_rows rows p = (inr text, p1) ->
  starts text "Query executed successfully".
Proof.
  destruct rows as [|row0 rows]; simpl.
  - intros [= <- _]. now exists " but returned no results."%string.
  - unfold bind at 1. unfold getitem at 1, ret at 1, raise at 1.
    destruct (Data row0) as [data0|]; [| discriminate].
    unfold bind at 1.
    destruct (comprehension _ data0 p) as [[e|headers] p2]; [discriminate |].
    unfold bind at 1.
    match goal with
    | |- context [for_each ?l render_row ?acc p2] =>
        destruct (for_each l render_row acc p2) as [[e|r] p3] eqn:Heach
    end; [discriminate |].
    apply for_each_render_row_extends in Heach as [more ->].
    unfold ret. intros [= <- _].
    destruct (bool_decide _); eexists; rewrite !append_assoc; simpl;
      reflexivity.
Qed.

Lemma starts_distinct (text : string) :
  starts text "Query executed successfully" ->
  ~ starts text "Query failed: " /\
  text <> "Query was cancelled."%string /\
  ~ starts text "Query timed out after 30 seconds. Status: " /\
  ~ starts text "Error: ".
Proof.
  intros [rest ->]. simpl. repeat split.
  - intros [rest' H]. simpl in H. discriminate.
  - discriminate.
  - intros [rest' H]. simpl in H. discriminate.
  - intros [rest' H]. simpl in H. discriminate.
Qed.

(** Every answer of a tool is of one of five kinds, told apart by how it
    starts: the success report or the no-results message, the failure
    message, the cancellation message, the timeout message, or the error
    string; and an answer of the first kind is returned only by an
    invocation that fetched a result set. *)
Theorem answers_are_of_five_kinds t p :
  exists text,
    fst (invoke t p) = inr text /\
    (starts text "Query executed successfully" \/
     starts text "Query failed: " \/
     text = "Query was cancelled."%string \/
     starts text "Query timed out after 30 seconds. Status: " \/
     starts text "Error: ") /\
    (starts text "Query executed successfully" ->
     exists res, fetched (new_calls p (snd (invoke t p))) = [res]).
Proof.
  destruct (invoke t p) as [out p'] eqn:Hrun.
  apply invoke_run in Hrun as (r & -> & Hran). simpl.
  eexists. split; [reflexivity |].
  assert (Herr : forall e, starts (outcome_text (inl e)) "Error: ").
  { intros e. simpl. unfold error_text. now eexists. }
  assert (Hkinds :
    (starts (outcome_text r) "Query executed successfully" /\
     exists res, fetched (new_calls p p') = [res]) \/
    starts (outcome_text r) "Query failed: " \/
    outcome_text r = "Query was cancelled."%string \/
    starts (outcome_text r) "Query timed out after 30 seconds. Status: " \/
    starts (outcome_text r) "Error: ").
  { by_conduct Hran (statement t) (destination t);
      try (subst r; right; right; right; right; apply Herr).
    destruct Hf as [e | qs e | qs res r0 Hr | qs | qs | qs s Hnt].
    - right. right. right. right. apply Herr.
    - right. right. right. right. apply Herr.
    - destruct r0 as [e|text]; [right; right; right; right; apply Herr |].
      left. split.
      + pose proof (Hr p) as Hfmt. unfold format_results in Hfmt.
        unfold bind at 1 in Hfmt. unfold getitem at 1, ret at 1, raise at 1
          in Hfmt.
        destruct (ResultSet res) as [rs|]; [| discriminate].
        unfold bind at 1 in Hfmt. unfold getitem at 1, ret at 1, raise at 1
          in Hfmt.
        destruct (Rows rs) as [rows|]; [| discriminate].
        apply (format_rows_starts _ _ _ _ Hfmt).
      + exists res.
        destruct (connected_record _ _ _ Hc) as (_ & _ & _ & F1 & _).
        destruct (polled_record _ _ _ _ _ Hp) as (_ & _ & F2).
        rewrite fetched_app, F1. simpl. now rewrite fetched_app, F2.
    - right. left. now eexists.
    - right. right. now left.
    - right. right. right. left. now eexists. }
  split.
  - destruct Hkinds as [[H _] | [H | [H | [H | H]]]]; tauto.
  - intros Hok.
    destruct (starts_distinct _ Hok) as (N1 & N2 & N3 & N4).
    destruct Hkinds as [[_ H] | [H | [H | [H | H]]]];
      [exact H | contradiction..].
Qed.

(** *** The time a timeout takes *)

Lemma polled_all_waiting_conduct id n seen evs r :
  polled id n seen evs r ->
  (forall o, o ∈ polls evs ->
             exists qs s, o = inr qs /\ read_state qs = inr s /\ ~ terminal s) ->
  (0 < n)%nat ->
  last evs = Some (Sleep 1) /\ List.filter waitingb (polls evs) = polls evs.
Proof.
  induction 1 as [seen | n seen e | n seen qs e He | n seen qs s Hs Ht
                 | n seen qs s evs r Hs Ht Hp IH];
    simpl; intros Hw Hn.
  - lia.
  - destruct (Hw (inl e)) as (? & ? & ? & _); [left | discriminate].
  - destruct (Hw (inr qs)) as (qs' & s' & Heq & Hs' & _); [left |].
    injection Heq as <-. congruence.
  - destruct (Hw (inr qs)) as (qs' & s' & Heq & Hs' & Hnt); [left |].
    injection Heq as <-. congruence.
  - rewrite Hs. unfold terminal in Ht.
    rewrite bool_decide_eq_false_2 by assumption. simpl.
    destruct n as [|n].
    + inversion Hp; subst. split; reflexivity.
    + destruct IH as [Hl Hf]; [intros o Ho; apply Hw; now right | lia |].
      rewrite Hf. split; [| reflexivity].
      destruct evs as [|ev evs]; [discriminate |].
      change (last (GetQueryExecution id (inr qs) :: Sleep 1 :: ev :: evs))
        with (last (ev :: evs)). exact Hl.
Qed.

(** An invocation that polls and only ever gets states other than
    SUCCEEDED, FAILED and CANCELLED sleeps thirty times one second, and the
    last thing it does before it returns is the thirtieth sleep. *)
Theorem timed_out_run_slept_thirty_seconds t p out p' :
  invoke t p = (out, p') ->
  polls (new_calls p p') <> [] ->
  (forall o, o ∈ polls (new_calls p p') ->
             exists qs s, o = inr qs /\ read_state qs = inr s /\ ~ terminal s) ->
  sleeps (new_calls p p') = repeat 1 30 /\
  last (new_calls p p') = Some (Sleep 1).
Proof.
  intros Hrun Hsome Hwait. apply invoke_run in Hrun as (r & _ & Hran).
  by_conduct Hran (statement t) (destination t);
    try (rewrite Rpolls in Hsome; contradiction);
    try (simpl in Hsome; contradiction).
  rewrite Rpolls in Hwait. rewrite Rsleeps.
  destruct (polled_all_waiting _ _ _ _ _ Hp Hwait) as (res & -> & Hlen).
  destruct (polled_all_waiting_conduct _ _ _ _ _ Hp Hwait) as [Hl Hall];
    [unfold max_attempts; lia |].
  destruct (polled_conduct _ _ _ _ _ Hp) as (_ & _ & _ & _ & ->).
  rewrite Hall, Hlen. split; [reflexivity |].
  destruct (polled_seen _ _ _ _ _ Hp)
    as [(Hn & _) | (qs & s & -> & Hs & Hlast)]; [discriminate |].
  destruct (Hwait _ (last_Some_elem_of _ _ Hlast))
    as (qs' & s' & Heq & Hs' & Hnt).
  injection Heq as <-. assert (s' = s) as -> by congruence.
  assert (Hne : forall s0, terminal s0 -> s0 <> s) by (intros s0 H0 ->; auto).
  inversion Hf as [| qs0 e | qs0 res r0 Hr0 | qs0 | qs0 | qs0 s0 _]; subst;
    try (exfalso; eapply Hne; [|reflexivity]; is_terminal).
  rewrite app_nil_r, last_app_cons.
  destruct pevs as [|ev pevs]; [discriminate |].
  change (last (StartQueryExecution (statement t) DATABASE_NAME
                  (destination t) (inr resp) :: ev :: pevs))
    with (last (ev :: pevs)). exact Hl.
Qed.

End Conduct.

Lemma polling_stops_at_first_answer_witness :
  length (polls (new_calls (fresh 0%nat)
                   (snd (lists_tables
                           (ends_in "CANCELLED" None
                                    (inl (Raised "not fetched")))))))
  = 3%nat.
Proof.
  destruct (@polling_stops_at_first_answer nat nat
              (scripted (ends_in "CANCELLED" None
                                 (inl (Raised "not fetched"))))
              ListTables (fresh 0%nat) _ _ (surjective_pairing _))
    as [_ Hlast].
  apply (Hlast 2%nat (status_of "CANCELLED" None) "CANCELLED"%string);
    [reflexivity | reflexivity | is_terminal].
Defined.

Lemma sleeps_one_second_per_waiting_poll_witness :
  sleeps (new_calls (fresh 0%nat)
            (snd (lists_tables
                    (ends_in "FAILED" None (inl (Raised "not fetched"))))))
  = [1; 1].
Proof.
  exact (proj1 (@sleeps_one_second_per_waiting_poll nat nat
                  (scripted (ends_in "FAILED" None
                                     (inl (Raised "not fetched"))))
                  ListTables (fresh 0%nat) _ _ (surjective_pairing _))).
Defined.

Lemma polls_and_fetch_use_the_issued_id_witness :
  issued (new_calls (fresh 0%nat) (snd (lists_tables
                                          (ends_in "SUCCEEDED" None
                                                   (inr two_rows)))))
  = ["q-1"%string].
Proof.
  apply (@polls_and_fetch_use_the_issued_id nat nat (succeeding two_rows)
           ListTables (fresh 0%nat) _ _ "q-1"%string (surjective_pairing _)).
  vm_compute. repeat constructor.
Defined.

Lemma results_fetched_only_on_success_witness :
  exists qs,
    last (polls (new_calls (fresh 0%nat)
                   (snd (lists_tables
                           (ends_in "SUCCEEDED" None (inr two_rows))))))
    = Some (inr qs) /\
    read_state qs = inr "SUCCEEDED"%string.
Proof.
  destruct (@results_fetched_only_on_success nat nat (succeeding two_rows)
              ListTables (fresh 0%nat) _ _ (surjective_pairing _))
    as [[Hfetch _] _].
  apply Hfetch. vm_compute. discriminate.
Defined.

Lemma no_client_no_submission_witness :
  new_calls (fresh 0%nat) (snd (lists_tables no_credentials))
  = [Boto3Client "athena" "eu-west-1"
       (inl (Raised "NoCredentialsError: Unable to locate credentials"))] /\
  _athena_client (snd (lists_tables no_credentials)) = None /\
  fst (lists_tables no_credentials)
  = inr ("Error: NoCredentialsError: Unable to locate credentials" +:+ nl
         +:+ "Traceback (most recent call last):" +:+ nl).
Proof.
  apply (@no_client_no_submission nat nat (scripted no_credentials)
           ListTables (fresh 0%nat) _ _
           (Raised "NoCredentialsError: Unable to locate credentials")
           (surjective_pairing _)).
  vm_compute. repeat constructor.
Defined.

Lemma client_requested_only_when_absent_witness :
  exists r,
    head (new_calls (fresh 0%nat)
            (snd (lists_tables (ends_in "SUCCEEDED" None (inr two_rows)))))
    = Some (Boto3Client "athena" "eu-west-1" r) /\
    client_requests
      (new_calls (fresh 0%nat)
         (snd (lists_tables (ends_in "SUCCEEDED" None (inr two_rows)))))
    = [r] /\
    _athena_client
      (snd (lists_tables (ends_in "SUCCEEDED" None (inr two_rows))))
    = match r with
      | inr c => Some c
      | inl _ => None
      end.
Proof.
  apply (proj1 (@client_requested_only_when_absent nat nat
                  (succeeding two_rows) ListTables (fresh 0%nat) _ _
                  (surjective_pairing _))).
  reflexivity.
Defined.

Lemma failed_submission_ends_the_run_witness :
  polls (new_calls (fresh 0%nat) (snd (lists_tables no_handle))) = [] /\
  fst (lists_tables no_handle)
  = inr ("Error: 'QueryExecutionId'" +:+ nl
         +:+ "Traceback (most recent call last):" +:+ nl).
Proof.
  destruct (@failed_submission_ends_the_run nat nat (scripted no_handle)
              ListTables (fresh 0%nat) _ _
              "SHOW TABLES IN drm_text2sql_db" "drm_text2sql_db"
              "s3://glab-drm-query-results/"
              (inr {| QueryExecutionId := None |})
              (surjective_pairing _))
    as (_ & _ & Hpolls & _ & _ & Hout).
  - vm_compute. repeat constructor.
  - intros resp [= <-]. reflexivity.
  - split; [exact Hpolls | exact Hout].
Defined.

Lemma malformed_poll_is_an_error_witness :
  fst (lists_tables garbled)
  = inr ("Error: 'State'" +:+ nl
         +:+ "Traceback (most recent call last):" +:+ nl) /\
  last (polls (new_calls (fresh 0%nat) (snd (lists_tables garbled))))
  = Some (inr stateless_poll) /\
  fetch_attempts (new_calls (fresh 0%nat) (snd (lists_tables garbled))) = [].
Proof.
  apply (@malformed_poll_is_an_error nat nat (scripted garbled)
           ListTables (fresh 0%nat) _ _ stateless_poll (KeyError "State")
           (surjective_pairing _)).
  - vm_compute. repeat constructor.
  - reflexivity.
Defined.

Lemma later_rows_are_only_counted_witness :
  fst (lists_tables (ends_in "SUCCEEDED" None (inr ragged_tail)))
  = inr (report_head ["n"] 12
         +:+ row_lines (repeat [{| VarCharValue := Some "7" |}] 10)
         +:+ nl +:+ "... and 2 more rows").
Proof.
  apply (@later_rows_are_only_counted nat nat (succeeding ragged_tail)
           ListTables (fresh 0%nat) _ _ ragged_tail
           (map Build_Datum [Some "n"]) ["n"]%string
           (map (map Build_Datum) (repeat [Some "7"] 10))
           [ {| Data := None |};
             {| Data := Some [ {| VarCharValue := None |} ] |} ]
           (surjective_pairing _));
    [vm_compute; repeat constructor | reflexivity | reflexivity
    | reflexivity].
Defined.

Lemma shown_row_without_data_is_an_error_witness :
  fst (lists_tables (ends_in "SUCCEEDED" None (inr torn_row)))
  = inr ("Error: 'Data'" +:+ nl
         +:+ "Traceback (most recent call last):" +:+ nl).
Proof.
  apply (@shown_row_without_data_is_an_error nat nat (succeeding torn_row)
           ListTables (fresh 0%nat) _ _ torn_row
           (map Build_Datum [Some "n"]) ["n"]%string
           (map (map Build_Datum) [[Some "7"]]) []
           (surjective_pairing _));
    [vm_compute; repeat constructor | reflexivity | reflexivity
    | simpl; lia].
Defined.

Lemma results_missing_a_key_are_an_error_witness :
  fst (lists_tables (ends_in "SUCCEEDED" None (inr rowless)))
  = inr ("Error: 'Rows'" +:+ nl
         +:+ "Traceback (most recent call last):" +:+ nl).
Proof.
  destruct (@results_missing_a_key_are_an_error nat nat (succeeding rowless)
              ListTables (fresh 0%nat) _ _ rowless (surjective_pairing _))
    as (_ & Hrows & _).
  - vm_compute. repeat constructor.
  - apply Hrows. reflexivity.
Defined.

Lemma timed_out_run_slept_thirty_seconds_witness :
  sleeps (new_calls (fresh 0%nat) (snd (lists_tables never_ends)))
  = repeat 1 30 /\
  last (new_calls (fresh 0%nat) (snd (lists_tables never_ends)))
  = Some (Sleep 1).
Proof.
  apply (@timed_out_run_slept_thirty_seconds nat nat (scripted never_ends)
           ListTables (fresh 0%nat) _ _ (surjective_pairing _)).
  - vm_compute. discriminate.
  - assert (Hq : ~ terminal "QUEUED").
    { unfold terminal. rewrite !elem_of_cons, elem_of_nil.
      intros [H | [H | [H | []]]]; discriminate. }
    apply Forall_forall.
    match goal with
    | |- Forall ?P ?l =>
        let l' := eval vm_compute in l in change (Forall P l')
    end.
    repeat (constructor;
            [eexists _, _;
             (split; [reflexivity | split; [reflexivity | exact Hq]]) |]).
    constructor.
Defined.
